(** * migrate-views.js: a shallow embedding

    The script copies the cards and decks of one Predix Views instance to
    another.  Every remote call goes through the [request] client, whose
    callback decides how a promise settles; bulk work launches one call per
    item and joins the promises with [Promise.all]; the top-level coroutine
    awaits one promise per [yield].

    The embedding keeps that structure:
    - values that travel over the wire are the shapes of the data model
      (items with optional [tags], [attributes.cards] and [cards]);
    - a promise is pending, fulfilled or rejected; a pending promise whose
      [request] callback threw is told apart, because that exception ends
      the process;
    - ordinary functions run in a state monad [IO] over the remote world and
      the log of issued calls, and hand back promises;
    - the coroutine runs in [Co], where [yield] awaits a promise. *)

From Stdlib Require Import String Ascii List Arith NArith Bool Lia DecimalString.
Import ListNotations.
Open Scope string_scope.

(** ** Data model *)

(** Properties the script never reads; carried along untouched. *)
Definition Fields := list (string * string).

Record Tag := { value : string; tag_other : Fields }.

(** An element of a deck's card list; the script reads [card.id] only. *)
Record CardRef := { card_id : string; card_other : Fields }.

Record Attributes := { attr_cards : option (list CardRef); attr_other : Fields }.

(** A card or a deck.  [None] stands for a property that is absent (or
    null): [item.tags], [deck.attributes], [deck.attributes.cards] and
    [deck.cards] are all tested for truthiness before use. *)
Record Item := {
  id : string;
  tags : option (list Tag);
  attributes : option Attributes;
  cards : option (list CardRef);
  other : Fields
}.

(** The JavaScript values that occur as request and response bodies. *)
Inductive JSValue :=
| JUndefined
| JNull
| JString (s : string)
| JItems (l : list Item)        (* an array of cards or decks *)
| JTags (l : list Tag)          (* an array of {value} objects *)
| JIds (l : list string)        (* an array of card ids *)
| JObject (o : Fields).         (* any other object, e.g. a token response;
                                   its properties are strings *)

(** [if (v)] *)
Definition truthy (v : JSValue) : bool :=
  match v with
  | JUndefined | JNull => false
  | JString s => negb (s =? "")
  | _ => true
  end.

(** [typeof v === 'string'] *)
Definition is_string (v : JSValue) : bool :=
  match v with JString _ => true | _ => false end.

(** [String(v)], the coercion [JSON.parse] applies to its argument. *)
Definition toString (v : JSValue) : string :=
  match v with
  | JUndefined => "undefined"
  | JNull => "null"
  | JString s => s
  | JItems l => String.concat "," (map (fun _ => "[object Object]") l)
  | JTags l => String.concat "," (map (fun _ => "[object Object]") l)
  | JIds l => String.concat "," l
  | JObject _ => "[object Object]"
  end.

(** [n.toString()] for a status code. *)
Definition decimal (n : N) : string := NilZero.string_of_uint (N.to_uint n).

(** [s.indexOf(t) !== 0] *)
Definition indexOf_ne_0 (t s : string) : bool :=
  match String.index 0 t s with
  | Some 0 => false
  | _ => true
  end.

(** What a promise is rejected with, or what a callback throws. *)
Inductive Exn :=
| Message (msg : string)        (* reject(`...`) *)
| TypeError                     (* property read on undefined or null *)
| SyntaxError                   (* JSON.parse on malformed text *)
| Thrown (e : string).          (* thrown by the transport itself *)

(** The state of a promise.  The [request] callbacks run from the event
    loop, outside every promise executor and outside the coroutine: an
    exception thrown by one of them is caught by nothing.  It ends the
    process as an uncaught exception, and the promise the callback should
    have settled stays pending; [Uncaught] is that pending promise. *)
Inductive Promise (A : Type) :=
| Pending
| Fulfilled (a : A)
| Rejected (e : Exn)
| Uncaught (e : Exn).           (* pending; its callback threw [e] *)
Arguments Pending {A}.
Arguments Fulfilled {A} a.
Arguments Rejected {A} e.
Arguments Uncaught {A} e.

(** What one run of a [request] callback does. *)
Inductive Settle (A : Type) :=
| Resolve (a : A)
| Reject (e : Exn)
| Throw (e : Exn).              (* escapes the callback; nothing is settled *)
Arguments Resolve {A} a.
Arguments Reject {A} e.
Arguments Throw {A} e.

Definition settle {A} (r : Settle A) : Promise A :=
  match r with
  | Resolve a => Fulfilled a
  | Reject e => Rejected e
  | Throw e => Uncaught e
  end.

(** ** The transport *)

Module Response.
Record t := { statusCode : N; headers : option Fields }.
End Response.

(** The three arguments of the [request] callback. *)
Record CallbackArgs := {
  error : option string;
  response : option Response.t;
  responseBody : JSValue
}.

(** The options object handed to [request]. *)
Record Request := {
  req_url : string;
  req_headers : Fields;
  req_method : string;
  req_json : bool;
  req_body : JSValue
}.

(** What the transport does with a call. *)
Inductive Delivery :=
| Silent                        (* the callback is never invoked *)
| Calls (args : CallbackArgs)
| Throws (e : string).          (* [request(...)] itself throws *)

(** The pieces of the host the script relies on.  [JSON_stringify v] is the
    text a template literal shows for [JSON.stringify(v)]. *)
Class Host := {
  JSON_parse : string -> option JSValue;
  JSON_stringify : JSValue -> string
}.

(** The object [requestViewsData] resolves with. *)
Record ViewsResult := { body : JSValue; headers : Fields }.

Definition status_or_unknown (response : option Response.t) : string :=
  match response with
  | Some r => decimal (Response.statusCode r)
  | None => "unknown"
  end.

(** [method ? method : 'GET'] *)
Definition method_or_GET (method : option string) : string :=
  match method with
  | Some m => if m =? "" then "GET" else m
  | None => "GET"
  end.

Section Callbacks.
Context `{Host}.

(** [!error && response && response.statusCode === 200] *)
Definition token_granted (args : CallbackArgs) : bool :=
  match error args with
  | Some _ => false
  | None =>
      match response args with
      | Some r => (Response.statusCode r =? 200)%N
      | None => false
      end
  end.

(** The callback of [requestToken] (lines 30-36). *)
Definition requestToken_callback (args : CallbackArgs) : Settle JSValue :=
  if token_granted args then
    match JSON_parse (toString (responseBody args)) with
    | Some v => Resolve v
    | None => Throw SyntaxError
    end
  else
    Reject (Message ("Error retrieving token. Response returned status code "
                     ++ status_or_unknown (response args))).

(** [error || (response && response.statusCode.toString().indexOf('2') !== 0)] *)
Definition request_failed (args : CallbackArgs) : bool :=
  match error args with
  | Some _ => true
  | None =>
      match response args with
      | Some r => indexOf_ne_0 "2" (decimal (Response.statusCode r))
      | None => false
      end
  end.

Definition failure_message (url zoneId : string) (method : option string)
    (body : JSValue) (args : CallbackArgs) : string :=
  "Request " ++ url
  ++ String "010" "Method: " ++ method_or_GET method
  ++ String "010" "Zone ID: " ++ zoneId
  ++ String "010" "Body: " ++ JSON_stringify body
  ++ String "010" "Status code: " ++ status_or_unknown (response args)
  ++ String "010" "Response body: " ++ JSON_stringify (responseBody args).

(** [(responseBody && typeof responseBody === 'string')
       ? JSON.parse(responseBody) : responseBody] *)
Definition decode_body (responseBody : JSValue) : option JSValue :=
  if truthy responseBody && is_string responseBody
  then JSON_parse (toString responseBody)
  else Some responseBody.

Definition headers_or_empty (response : option Response.t) : Fields :=
  match response with
  | Some r => match Response.headers r with Some h => h | None => [] end
  | None => []
  end.

(** The callback of [requestViewsData] (lines 62-73). *)
Definition requestViewsData_callback (url zoneId : string)
    (method : option string) (body : JSValue) (args : CallbackArgs)
    : Settle ViewsResult :=
  if request_failed args then
    Reject (Message (failure_message url zoneId method body args))
  else
    match decode_body (responseBody args) with
    | Some b => Resolve {| body := b; headers := headers_or_empty (response args) |}
    | None => Throw SyntaxError
    end.

End Callbacks.

(** ** Promises joined by the bulk operations *)

(** [Promise.all(ps)]: rejected as soon as one of [ps] is, fulfilled once
    all are, pending otherwise.  Which rejection wins depends on arrival
    order; the script never looks at it. *)
Fixpoint Promise_all {A} (ps : list (Promise A)) : Promise (list A) :=
  match ps with
  | [] => Fulfilled []
  | p :: ps' =>
      match p, Promise_all ps' with
      | Rejected e, _ => Rejected e
      | _, Rejected e => Rejected e
      | Uncaught e, _ => Uncaught e
      | _, Uncaught e => Uncaught e
      | Pending, _ => Pending
      | _, Pending => Pending
      | Fulfilled a, Fulfilled l => Fulfilled (a :: l)
      end
  end.

(** [new Promise((resolve, reject) => { ...; p.then(() => resolve()); })]:
    the only way the new promise settles is through [resolve]; [reject] is
    never called and [.then] is given no rejection handler. *)
Definition resolve_when_fulfilled {A} (p : Promise A) : Promise unit :=
  match p with
  | Fulfilled _ => Fulfilled tt
  | _ => Pending
  end.

Definition fulfilled {A} (p : Promise A) : bool :=
  match p with Fulfilled _ => true | _ => false end.

Definition rejected {A} (p : Promise A) : bool :=
  match p with Rejected _ => true | _ => false end.

(** Fulfilled or rejected. *)
Definition settled {A} (p : Promise A) : bool :=
  match p with Fulfilled _ | Rejected _ => true | _ => false end.

(** Left pending by a callback that threw. *)
Definition uncaught {A} (p : Promise A) : bool :=
  match p with Uncaught _ => true | _ => false end.

(** ** State: the remote world and the log of issued calls *)

Record St (World : Type) := {
  world : World;
  trace : list (Request * Delivery)
}.
Arguments world {World} s.
Arguments trace {World} s.

(** Synchronous code. *)
Definition IO (World A : Type) := St World -> A * St World.

Definition ret {World A} (a : A) : IO World A := fun s => (a, s).

Definition bind {World A B} (m : IO World A) (k : A -> IO World B) : IO World B :=
  fun s => let (a, s') := m s in k a s'.

Declare Scope io_scope.
Delimit Scope io_scope with io.
Notation "x <- c ;; k" := (bind c (fun x => k))
  (at level 100, c at next level, right associativity) : io_scope.
Notation "c ;; k" := (bind c (fun _ => k))
  (at level 100, right associativity) : io_scope.

(** [_.each(list, f)], with the array [f] pushes to threaded through. *)
Fixpoint each {World A B} (f : A -> B -> IO World B) (l : list A) (acc : B)
    : IO World B :=
  match l with
  | [] => ret acc
  | x :: l' => (acc' <- f x acc ;; each f l' acc')%io
  end.

(** The coroutine: what happens at a [yield], or at a statement that
    throws. *)
Inductive Run (A : Type) :=
| Next (a : A)
| Failed (e : Exn)              (* the coroutine's promise is rejected *)
| Stalled.                      (* the coroutine is never resumed *)
Arguments Next {A} a.
Arguments Failed {A} e.
Arguments Stalled {A}.

Definition Co (World A : Type) := St World -> Run A * St World.

Definition co_bind {World A B} (m : Co World A) (k : A -> Co World B)
    : Co World B :=
  fun s =>
    match m s with
    | (Next a, s') => k a s'
    | (Failed e, s') => (Failed e, s')
    | (Stalled, s') => (Stalled, s')
    end.

Definition co_ret {World A} (a : A) : Co World A := fun s => (Next a, s).

(** A statement that runs synchronously inside the coroutine. *)
Definition perform {World A} (m : IO World A) : Co World A :=
  fun s => let (a, s') := m s in (Next a, s').

(** An expression that may throw. *)
Definition eval {World A} (r : Run A) : Co World A := fun s => (r, s).

(** [yield p]: the coroutine is resumed when [p] settles.  It never is when
    [p] stays pending, be it because no answer comes or because the process
    has ended on an uncaught exception. *)
Definition await {A} (p : Promise A) : Run A :=
  match p with
  | Fulfilled a => Next a
  | Rejected e => Failed e
  | Pending => Stalled
  | Uncaught _ => Stalled
  end.

Definition yield {World A} (m : IO World (Promise A)) : Co World A :=
  fun s => let (p, s') := m s in (await p, s').

(** [yield p] while the calls behind [others] are under way.  Nobody waits
    for [others], but their callbacks run all the same.  When [m] issues no
    call of its own, [p] is settled before any answer arrives and the
    coroutine is resumed at once.  Otherwise [p] waits for answers, and the
    callbacks of [others] run before those of the calls issued after them:
    when one of them throws, the process ends and the coroutine is not
    resumed, whatever becomes of [p]. *)
Definition yield_beside {World A B} (others : list (Promise B))
    (m : IO World (Promise A)) : Co World A :=
  fun s =>
    let (p, s') := m s in
    (if (length (trace s) <? length (trace s'))%nat && existsb uncaught others
     then Stalled else await p, s').

Declare Scope co_scope.
Delimit Scope co_scope with co.
Notation "x <- c ;; k" := (co_bind c (fun x => k))
  (at level 100, c at next level, right associativity) : co_scope.
Notation "c ;; k" := (co_bind c (fun _ => k))
  (at level 100, right associativity) : co_scope.

(** ** Configuration *)

(** The contents of [views-config.json]. *)
Record LocalConfig := {
  originalViewsUrl : string;
  destinationViewsUrl : string;
  originalViewsZoneId : string;
  destinationViewsZoneId : string;
  originalUaaUrl : string;
  destinationUaaUrl : string;
  originalUaaCredentials : string;
  destinationUaaCredentials : string;
  clearDestination : bool
}.

(** The same object once [getConfig] has added its fields. *)
Record Config := {
  local : LocalConfig;
  originalCardsUrl : string;
  originalDecksUrl : string;
  destinationCardsUrl : string;
  destinationDecksUrl : string;
  originalToken : string;
  destinationToken : string
}.

Definition getConfig (config : LocalConfig) : Config := {|
  local := config;
  originalCardsUrl := originalViewsUrl config ++ "/api/cards";
  originalDecksUrl := originalViewsUrl config ++ "/api/decks";
  destinationCardsUrl := destinationViewsUrl config ++ "/api/cards";
  destinationDecksUrl := destinationViewsUrl config ++ "/api/decks";
  originalToken := "";
  destinationToken := ""
|}.

Definition set_originalToken (config : Config) (t : string) : Config := {|
  local := local config;
  originalCardsUrl := originalCardsUrl config;
  originalDecksUrl := originalDecksUrl config;
  destinationCardsUrl := destinationCardsUrl config;
  destinationDecksUrl := destinationDecksUrl config;
  originalToken := t;
  destinationToken := destinationToken config
|}.

Definition set_destinationToken (config : Config) (t : string) : Config := {|
  local := local config;
  originalCardsUrl := originalCardsUrl config;
  originalDecksUrl := originalDecksUrl config;
  destinationCardsUrl := destinationCardsUrl config;
  destinationDecksUrl := destinationDecksUrl config;
  originalToken := originalToken config;
  destinationToken := t
|}.

(** ** The script *)

Section Script.
Context `{Host} {World : Type}.
Variable transport : World -> Request -> Delivery * World.

(** Hand a call to [request] and log it with what comes back.  The
    transport fixes the delivery when the call is issued; the callback runs
    later, and nothing the script issues in the meantime depends on it
    unless a [yield] waits for the promise.  The world is threaded through
    the calls in the order they are issued, so a transport may answer from
    everything it has been asked so far. *)
Definition send (req : Request) : IO World Delivery :=
  fun s =>
    let (d, w) := transport (world s) req in
    (d, {| world := w; trace := trace s ++ [(req, d)] |}).

(** The promise built around one [request] call.  A throw of [request]
    itself rejects it (the executor of lines 20-37, the [catch] of line 74). *)
Definition promise_of {A} (callback : CallbackArgs -> Settle A) (d : Delivery)
    : Promise A :=
  match d with
  | Silent => Pending
  | Calls args => settle (callback args)
  | Throws e => Rejected (Thrown e)
  end.

Definition token_request (uaaUrl credentials : string) : Request := {|
  req_url := uaaUrl ++ "/oauth/token";
  req_headers := [("Authorization", "Basic " ++ credentials);
                  ("Content-Type", "application/x-www-form-urlencoded")];
  req_method := "POST";
  req_json := false;
  req_body := JString "grant_type=client_credentials&response_type=token"
|}.

(** Lines 19-38. *)
Definition requestToken (uaaUrl credentials : string)
    : IO World (Promise JSValue) :=
  (d <- send (token_request uaaUrl credentials) ;;
   ret (promise_of requestToken_callback d))%io.

Definition views_request (url zoneId token : string) (method : option string)
    (body : JSValue) : Request := {|
  req_url := url;
  req_headers := [("Predix-Zone-Id", zoneId); ("Authorization", token)];
  req_method := method_or_GET method;
  req_json := truthy body;
  req_body := if truthy body then body else JNull
|}.

(** Lines 49-78. *)
Definition requestViewsData (url zoneId token : string)
    (method : option string) (body : JSValue)
    : IO World (Promise ViewsResult) :=
  (d <- send (views_request url zoneId token method body) ;;
   ret (promise_of (requestViewsData_callback url zoneId method body) d))%io.

(** The loop of [deleteData] (lines 93-98). *)
Definition deleteData_each (items : list Item) (url zoneId token : string)
    : IO World (list (Promise ViewsResult)) :=
  each (fun item promises =>
          let itemUrl := url ++ "/" ++ id item in
          (promise <- requestViewsData itemUrl zoneId token (Some "DELETE") JUndefined ;;
           ret (promises ++ [promise])%list)%io)
       items [].

(** Lines 89-101.  [type] only feeds the console. *)
Definition deleteData (items : list Item) (url zoneId token type : string)
    : IO World (Promise unit) :=
  (promises <- deleteData_each items url zoneId token ;;
   ret (resolve_when_fulfilled (Promise_all promises)))%io.

(** [item && item.tags && item.tags.length > 0]; an item is an object,
    so the first conjunct holds. *)
Definition has_tags (item : Item) : bool :=
  match tags item with
  | Some l => (0 <? length l)%nat
  | None => false
  end.

(** [item.tags.map((tag) => { return { value: tag.value }; })] *)
Definition tag_values (item : Item) : JSValue :=
  match tags item with
  | Some l => JTags (map (fun tag => {| value := value tag; tag_other := [] |}) l)
  | None => JUndefined
  end.

(** The loop of [addTags] (lines 116-126). *)
Definition addTags_each (url : string) (list : list Item) (zoneId token : string)
    : IO World (Datatypes.list (Promise ViewsResult)) :=
  each (fun item promises =>
          if has_tags item then
            (promise <- requestViewsData (url ++ "/" ++ id item ++ "/tags")
                          zoneId token (Some "POST") (tag_values item) ;;
             ret (promises ++ [promise])%list)%io
          else ret promises)
       list [].

(** Lines 112-129. *)
Definition addTags (url : string) (list : list Item) (zoneId token : string)
    : IO World (Promise unit) :=
  (promises <- addTags_each url list zoneId token ;;
   ret (resolve_when_fulfilled (Promise_all promises)))%io.

(** *** The coroutine, stage by stage *)

(** [parsed.access_token] inside a template literal. *)
Definition access_token (parsed : JSValue) : Run string :=
  match parsed with
  | JUndefined | JNull => Failed TypeError
  | JObject o =>
      match find (fun kv => fst kv =? "access_token") o with
      | Some kv => Next (snd kv)
      | None => Next "undefined"
      end
  | _ => Next "undefined"
  end.

(** An element that has none of the properties the script reads: in a URL
    its [id] shows as "undefined", and the guards of lines 117, 204 and 213
    skip it. *)
Definition no_item : Item :=
  {| id := "undefined"; tags := None; attributes := None; cards := None; other := [] |}.

(** What [_.each(body, f)] hands to [f], one after the other: the elements
    of an array, the characters of a string, the property values of an
    object.  Of these only the elements of an array of items carry
    properties the script reads. *)
Definition elements (body : JSValue) : list Item :=
  match body with
  | JUndefined | JNull => []
  | JString s => map (fun _ => no_item) (list_ascii_of_string s)
  | JItems l => l
  | JTags l => map (fun _ => no_item) l
  | JIds l => map (fun _ => no_item) l
  | JObject o => map (fun _ => no_item) o
  end.

(** A body used as the list it is expected to be.  Reading [.length] of
    undefined or null throws; any other body goes on as it is, an empty
    string (the body of an empty answer) like an empty array. *)
Definition items_of (body : JSValue) : Run (list Item) :=
  match body with
  | JUndefined | JNull => Failed TypeError
  | _ => Next (elements body)
  end.

(** Lines 150-158. *)
Definition authenticate (config : Config) : Co World Config :=
  (parsed <- yield (requestToken (originalUaaUrl (local config))
                                 (originalUaaCredentials (local config))) ;;
   token <- eval (access_token parsed) ;;
   let config := set_originalToken config ("Bearer " ++ token) in
   parsed <- yield (requestToken (destinationUaaUrl (local config))
                                 (destinationUaaCredentials (local config))) ;;
   token <- eval (access_token parsed) ;;
   co_ret (set_destinationToken config ("Bearer " ++ token)))%co.

(** Lines 161-168.  [items.length] is first read inside [deleteData]'s
    executor, so a missing body only fails there. *)
Definition clearDestinationData (config : Config) : Co World unit :=
  if clearDestination (local config) then
    (cards <- yield (requestViewsData (destinationCardsUrl config)
                       (destinationViewsZoneId (local config))
                       (destinationToken config) None JUndefined) ;;
     decks <- yield (requestViewsData (destinationDecksUrl config)
                       (destinationViewsZoneId (local config))
                       (destinationToken config) None JUndefined) ;;
     items <- eval (items_of (body cards)) ;;
     yield (deleteData items (destinationCardsUrl config)
              (destinationViewsZoneId (local config))
              (destinationToken config) "card") ;;
     items <- eval (items_of (body decks)) ;;
     yield (deleteData items (destinationDecksUrl config)
              (destinationViewsZoneId (local config))
              (destinationToken config) "deck"))%co
  else co_ret tt.

(** Lines 170-184.  [cards.length] is read on line 173, right after the
    fetch; the body is posted as it came.  [destinationCards] is fetched and
    not used. *)
Definition migrateCards (config : Config) : Co World (list Item) :=
  (fetched <- yield (requestViewsData (originalCardsUrl config)
                       (originalViewsZoneId (local config))
                       (originalToken config) None JUndefined) ;;
   cards <- eval (items_of (body fetched)) ;;
   yield (requestViewsData (destinationViewsUrl (local config) ++ "/api/cards")
            (destinationViewsZoneId (local config))
            (destinationToken config) (Some "POST") (body fetched)) ;;
   destinationCards <- yield (requestViewsData
                                (destinationViewsUrl (local config) ++ "/api/cards")
                                (destinationViewsZoneId (local config))
                                (destinationToken config) None JUndefined) ;;
   yield (addTags (destinationCardsUrl config) cards
            (destinationViewsZoneId (local config))
            (destinationToken config)) ;;
   co_ret cards)%co.

(** Lines 186-199.  [decks.length] is read on line 189. *)
Definition migrateDecks (config : Config) : Co World (list Item) :=
  (fetched <- yield (requestViewsData
                       (originalDecksUrl config ++ "?filter[include][cards]")
                       (originalViewsZoneId (local config))
                       (originalToken config) None JUndefined) ;;
   decks <- eval (items_of (body fetched)) ;;
   yield (requestViewsData (destinationDecksUrl config)
            (destinationViewsZoneId (local config))
            (destinationToken config) (Some "POST") (body fetched)) ;;
   yield (addTags (destinationDecksUrl config) decks
            (destinationViewsZoneId (local config))
            (destinationToken config)) ;;
   co_ret decks)%co.

(** [cards.map((card) => { return card.id; })] *)
Definition card_ids (cards : list CardRef) : JSValue := JIds (map card_id cards).

(** [deck.attributes.cards], when the guard of line 204 lets it through. *)
Definition attributes_cards (deck : Item) : option (list CardRef) :=
  match attributes deck with
  | Some a =>
      match attr_cards a with
      | Some l => if (0 <? length l)%nat then Some l else None
      | None => None
      end
  | None => None
  end.

(** [deck.cards], when the guard of line 213 lets it through. *)
Definition deck_cards (deck : Item) : option (list CardRef) :=
  match cards deck with
  | Some l => if (0 <? length l)%nat then Some l else None
  | None => None
  end.

(** Lines 203-209: the promises are dropped on the floor; they are handed
    back here for the sake of their callbacks. *)
Definition associateOrigin (config : Config) (decks : list Item)
    : IO World (list (Promise ViewsResult)) :=
  each (fun deck dropped =>
          match attributes_cards deck with
          | Some l =>
              (promise <- requestViewsData
                            (originalDecksUrl config ++ "/" ++ id deck ++ "/cards/add")
                            (originalViewsZoneId (local config))
                            (originalToken config) (Some "POST") (card_ids l) ;;
               ret (dropped ++ [promise])%list)%io
          | None => ret dropped
          end)
       decks [].

(** The loop of lines 212-221. *)
Definition associateDestination_each (config : Config) (decks : list Item)
    : IO World (list (Promise ViewsResult)) :=
  each (fun deck promises =>
          match deck_cards deck with
          | Some l =>
              (promise <- requestViewsData
                            (destinationDecksUrl config ++ "/" ++ id deck ++ "/cards/add")
                            (destinationViewsZoneId (local config))
                            (destinationToken config) (Some "POST") (card_ids l) ;;
               ret (promises ++ [promise])%list)%io
          | None => ret promises
          end)
       decks [].

(** Lines 210-223. *)
Definition associateDestination (config : Config) (decks : list Item)
    : IO World (Promise unit) :=
  (promises <- associateDestination_each config decks ;;
   ret (resolve_when_fulfilled (Promise_all promises)))%io.

(** Lines 201-224.  The origin calls are issued first and nobody waits for
    them. *)
Definition associateCards (config : Config) (decks : list Item) : Co World unit :=
  (dropped <- perform (associateOrigin config decks) ;;
   yield_beside dropped (associateDestination config decks))%co.

(** Lines 146-225. *)
Definition migrateGenerator (localConfig : LocalConfig) : Co World unit :=
  (config <- authenticate (getConfig localConfig) ;;
   clearDestinationData config ;;
   migrateCards config ;;
   decks <- migrateDecks config ;;
   associateCards config decks)%co.

End Script.

(** ** Vocabulary of the statements *)

(** [s] starts with the character [c]. *)
Definition starts_with (c : ascii) (s : string) : Prop :=
  exists rest, s = String c rest.

(** [t] occurs in [s]. *)
Definition occurs_in (t s : string) : Prop :=
  exists before after, s = before ++ t ++ after.

(** How a views call ends, read off what the transport delivered. *)
Section Outcomes.
Context `{Host}.

Definition succeeds (d : Delivery) : bool :=
  match d with
  | Calls args =>
      negb (request_failed args)
      && match decode_body (responseBody args) with Some _ => true | None => false end
  | _ => false
  end.

Definition fails (d : Delivery) : bool :=
  match d with
  | Calls args => request_failed args
  | Throws _ => true
  | Silent => false
  end.

(** The callback of the views call throws: the answer passes the test of
    line 63 and its body is a text that is not JSON. *)
Definition throws (d : Delivery) : bool :=
  match d with
  | Calls args =>
      negb (request_failed args)
      && match decode_body (responseBody args) with Some _ => false | None => true end
  | _ => false
  end.

End Outcomes.

(** What a call was answered with, read off its log entry. *)
Section Answers.
Context `{Host}.

(** The body a views call resolves with, when it does. *)
Definition answer_body (d : Delivery) : JSValue :=
  match d with
  | Calls args =>
      match decode_body (responseBody args) with
      | Some b => b
      | None => JUndefined
      end
  | _ => JUndefined
  end.

(** The items a listing was answered with. *)
Definition listing (d : Delivery) : list Item := elements (answer_body d).

(** The token the script makes of the answer to a token exchange, when the
    exchange is granted. *)
Definition token_obtained (d : Delivery) : string :=
  match promise_of requestToken_callback d with
  | Fulfilled parsed =>
      match access_token parsed with
      | Next token => "Bearer " ++ token
      | _ => ""
      end
  | _ => ""
  end.

End Answers.

(** The calls one bulk loop selects from its list, in order. *)
Fixpoint chosen {A B} (sel : A -> option B) (l : list A) : list B :=
  match l with
  | [] => []
  | x :: l' =>
      match sel x with
      | Some b => b :: chosen sel l'
      | None => chosen sel l'
      end
  end.

(** The transport answering a list of calls in the order they are issued. *)
Fixpoint run_calls {World} (transport : World -> Request -> Delivery * World)
    (reqs : list Request) (w : World) : list Delivery * World :=
  match reqs with
  | [] => ([], w)
  | r :: rs =>
      let (d, w1) := transport w r in
      let (ds, w2) := run_calls transport rs w1 in
      (d :: ds, w2)
  end.

(** ** A host and transports for worked examples *)

Definition quote : string := String (ascii_of_nat 34) "".

Definition print_string (s : string) : string := quote ++ s ++ quote.

Definition print_fields (o : Fields) : list string :=
  map (fun kv => print_string (fst kv) ++ ":" ++ print_string (snd kv)) o.

Definition print_object (members : list string) : string :=
  "{" ++ String.concat "," members ++ "}".

Definition print_array (elements : list string) : string :=
  "[" ++ String.concat "," elements ++ "]".

Definition print_member {A} (name : string) (print : A -> string) (v : option A)
    : list string :=
  match v with
  | Some a => [print_string name ++ ":" ++ print a]
  | None => []
  end.

Definition print_tag (t : Tag) : string :=
  print_object ((print_string "value" ++ ":" ++ print_string (value t))
                :: print_fields (tag_other t)).

Definition print_card (c : CardRef) : string :=
  print_object ((print_string "id" ++ ":" ++ print_string (card_id c))
                :: print_fields (card_other c)).

Definition print_cards (l : list CardRef) : string :=
  print_array (map print_card l).

Definition print_attributes (a : Attributes) : string :=
  print_object (print_member "cards" print_cards (attr_cards a)
                ++ print_fields (attr_other a)).

Definition print_item (i : Item) : string :=
  print_object ((print_string "id" ++ ":" ++ print_string (id i))
                :: print_member "tags" (fun l => print_array (map print_tag l)) (tags i)
                ++ print_member "attributes" print_attributes (attributes i)
                ++ print_member "cards" print_cards (cards i)
                ++ print_fields (other i)).

(** JSON text of a value whose strings need no escaping. *)
Definition print_json (v : JSValue) : string :=
  match v with
  | JUndefined => "undefined"
  | JNull => "null"
  | JString s => print_string s
  | JItems l => print_array (map print_item l)
  | JTags l => print_array (map print_tag l)
  | JIds l => print_array (map print_string l)
  | JObject o => print_object (print_fields o)
  end.

(** A host that parses exactly the texts of the values in [table]. *)
Definition example_host (table : list JSValue) : Host := {|
  JSON_parse := fun s => find (fun v => print_json v =? s) table;
  JSON_stringify := print_json
|}.

Definition ok (status : N) (text : string) : Delivery :=
  Calls {| error := None;
           response := Some {| Response.statusCode := status; Response.headers := None |};
           responseBody := JString text |}.

(** A stateless transport answering from a table keyed by method and URL;
    anything else is not found. *)
Definition example_transport (answers : list (string * string * Delivery))
    (w : unit) (req : Request) : Delivery * unit :=
  match find (fun a => (fst (fst a) =? req_method req)
                       && (snd (fst a) =? req_url req)) answers with
  | Some a => (snd a, w)
  | None => (ok 404 "", w)
  end.

Definition start : St unit := {| world := tt; trace := [] |}.

(** ** The calls each bulk loop is expected to issue *)

Definition tags_or_nil (item : Item) : list Tag :=
  match tags item with Some l => l | None => [] end.

Definition nonempty {A} (o : option (list A)) : bool :=
  match o with Some (_ :: _) => true | _ => false end.

(** One DELETE per item, to [url/id]. *)
Definition delete_requests (url zoneId token : string) (items : list Item)
    : list Request :=
  map (fun item =>
         {| req_url := url ++ "/" ++ id item;
            req_headers := [("Predix-Zone-Id", zoneId); ("Authorization", token)];
            req_method := "DELETE";
            req_json := false;
            req_body := JNull |})
      items.

(** One POST per item with a non-empty tag list, to [url/id/tags], carrying
    the tag values. *)
Definition tag_requests (url zoneId token : string) (items : list Item)
    : list Request :=
  map (fun item =>
         {| req_url := url ++ "/" ++ id item ++ "/tags";
            req_headers := [("Predix-Zone-Id", zoneId); ("Authorization", token)];
            req_method := "POST";
            req_json := true;
            req_body := JTags (map (fun tag => {| value := value tag; tag_other := [] |})
                                   (tags_or_nil item)) |})
      (filter (fun item => nonempty (tags item)) items).

(** One POST per deck for which [membership] is non-empty, to
    [url/id/cards/add], carrying the ids of those cards. *)
Definition association_requests (membership : Item -> option (list CardRef))
    (url zoneId token : string) (decks : list Item) : list Request :=
  map (fun deck =>
         {| req_url := url ++ "/" ++ id deck ++ "/cards/add";
            req_headers := [("Predix-Zone-Id", zoneId); ("Authorization", token)];
            req_method := "POST";
            req_json := true;
            req_body := JIds (map card_id
                                (match membership deck with Some l => l | None => [] end)) |})
      (filter (fun deck => nonempty (membership deck)) decks).

(** [deck.attributes.cards] *)
Definition membership_in_attributes (deck : Item) : option (list CardRef) :=
  match attributes deck with
  | Some a => attr_cards a
  | None => None
  end.

(** ** Bulk loops, uniformly *)

Section Bulk.
Context `{Host} {World : Type}.
Variable transport : World -> Request -> Delivery * World.

(** The promise of a views call, given what the transport delivered. *)
Definition views_promise (zoneId : string) (method : option string)
    (call : string * JSValue) (d : Delivery) : Promise ViewsResult :=
  promise_of (requestViewsData_callback (fst call) zoneId method (snd call)) d.

(** The common body of the four loops: [sel] picks the URL and body of the
    call an element gives rise to, if any. *)
Definition bulk_step {A} (sel : A -> option (string * JSValue))
    (zoneId token : string) (method : option string)
    (x : A) (promises : list (Promise ViewsResult))
    : IO World (list (Promise ViewsResult)) :=
  match sel x with
  | Some call =>
      (promise <- requestViewsData transport (fst call) zoneId token method (snd call) ;;
       ret (promises ++ [promise])%list)%io
  | None => ret promises
  end.

Definition bulk_requests {A} (sel : A -> option (string * JSValue))
    (zoneId token : string) (method : option string) (l : list A) : list Request :=
  map (fun call => views_request (fst call) zoneId token method (snd call))
      (chosen sel l).

(** The selectors of the loops of [addTags] and of the two association
    loops. *)
Definition tag_call (url : string) (item : Item) : option (string * JSValue) :=
  if has_tags item then Some (url ++ "/" ++ id item ++ "/tags", tag_values item) else None.

Definition association_call (membership : Item -> option (list CardRef))
    (url : string) (deck : Item) : option (string * JSValue) :=
  if nonempty (membership deck) then
    Some (url ++ "/" ++ id deck ++ "/cards/add",
          card_ids (match membership deck with Some l => l | None => [] end))
  else None.

(** What the transport delivers for [reqs], issued in order from [s]. *)
Definition answers (s : St World) (reqs : list Request) : list Delivery :=
  fst (run_calls transport reqs (world s)).

(** The state once [reqs] have been issued from [s]: each call is logged
    with what was delivered for it. *)
Definition after_calls (s : St World) (reqs : list Request) : St World :=
  {| world := snd (run_calls transport reqs (world s));
     trace := trace s ++ combine reqs (answers s reqs) |}.

End Bulk.

(** ** Invariants of the log *)

(** Every call a computation adds to the log satisfies [P]. *)
Definition io_logs {World A} (P : Request -> Prop) (m : IO World A) : Prop :=
  forall s, exists new,
    trace (snd (m s)) = (trace s ++ new)%list /\ Forall (fun e => P (fst e)) new.

Definition logs {World A} (P : Request -> Prop) (m : Co World A) : Prop :=
  forall s, exists new,
    trace (snd (m s)) = (trace s ++ new)%list /\ Forall (fun e => P (fst e)) new.

Definition token_exchange (r : Request) : Prop :=
  exists uaaUrl credentials, r = token_request uaaUrl credentials.

Definition get_or_post (r : Request) : Prop :=
  req_method r = "GET" \/ req_method r = "POST".

(** ** Worked examples *)

Definition card (i : string) (t : list Tag) : Item :=
  {| id := i; tags := Some t; attributes := None; cards := None; other := [] |}.

Definition tag (v : string) : Tag := {| value := v; tag_other := [] |}.

(** The cards of the round-trip scenario, and the same cards as the
    destination lists them once created, under ids of its own. *)
Definition origin_cards : list Item := [card "1" [tag "x"]; card "2" []].

Definition destination_cards : list Item := [card "101" []; card "102" []].

Definition example_localConfig (clear : bool) : LocalConfig := {|
  originalViewsUrl := "https://origin";
  destinationViewsUrl := "https://destination";
  originalViewsZoneId := "origin-zone";
  destinationViewsZoneId := "destination-zone";
  originalUaaUrl := "https://origin-uaa";
  destinationUaaUrl := "https://destination-uaa";
  originalUaaCredentials := "b3JpZ2lu";
  destinationUaaCredentials := "ZGVzdA==";
  clearDestination := clear
|}.

(** The configuration once both tokens are in place. *)
Definition example_config : Config :=
  set_destinationToken
    (set_originalToken (getConfig (example_localConfig false)) "Bearer o")
    "Bearer d".

Definition cards_host : Host :=
  example_host [JItems origin_cards; JItems destination_cards].

(** The destination accepts the cards and lists them under its own ids;
    it knows no card "1", so the tag call is answered 404. *)
Definition cards_transport : unit -> Request -> Delivery * unit :=
  example_transport
    [("GET", "https://origin/api/cards", ok 200 (print_json (JItems origin_cards)));
     ("POST", "https://destination/api/cards", ok 200 "");
     ("GET", "https://destination/api/cards",
      ok 200 (print_json (JItems destination_cards)))].

(** The deck of the association scenario: its membership is under
    [attributes.cards]. *)
Definition deck_d1 : Item := {|
  id := "d1";
  tags := None;
  attributes := Some {| attr_cards := Some [ {| card_id := "1"; card_other := [] |};
                                             {| card_id := "2"; card_other := [] |} ];
                        attr_other := [] |};
  cards := None;
  other := []
|}.

(** A transport that answers every call with the same delivery. *)
Definition constant_transport (d : Delivery) (w : unit) (req : Request)
    : Delivery * unit := (d, w).

(** A transport that plays a script: the n-th call gets the n-th answer. *)
Definition scripted_transport (script : list Delivery) (n : nat) (req : Request)
    : Delivery * nat := (nth n script (ok 404 ""), S n).

(** The full-pipeline scenario: the destination starts with three cards and
    one deck; the origin holds [origin_cards] and one deck that lists them.
    The origin refuses the association call. *)
Definition stale_cards : list Item := [card "7" []; card "8" []; card "9" []].

Definition stale_decks : list Item :=
  [ {| id := "old"; tags := None; attributes := None; cards := None; other := [] |} ].

Definition origin_decks : list Item :=
  [ {| id := "d1";
       tags := None;
       attributes := Some {| attr_cards := Some [ {| card_id := "1"; card_other := [] |};
                                                  {| card_id := "2"; card_other := [] |} ];
                             attr_other := [] |};
       cards := Some [ {| card_id := "1"; card_other := [] |};
                       {| card_id := "2"; card_other := [] |} ];
       other := [] |} ].

Definition pipeline_host : Host :=
  example_host [JObject [("access_token", "o")]; JObject [("access_token", "d")];
                JItems stale_cards; JItems stale_decks;
                JItems origin_cards; JItems destination_cards; JItems origin_decks].

Definition pipeline_script : list Delivery :=
  [ ok 200 (print_json (JObject [("access_token", "o")]));
    ok 200 (print_json (JObject [("access_token", "d")]));
    ok 200 (print_json (JItems stale_cards));
    ok 200 (print_json (JItems stale_decks));
    ok 204 ""; ok 204 ""; ok 204 "";
    ok 204 "";
    ok 200 (print_json (JItems origin_cards));
    ok 200 "";
    ok 200 (print_json (JItems destination_cards));
    ok 200 "";
    ok 200 (print_json (JItems origin_decks));
    ok 200 "";
    ok 500 "";
    ok 200 "" ].

Definition pipeline_start : St nat := {| world := 0; trace := [] |}.

(** ** Vocabulary of the further properties *)

Section TokenOutcome.
Context `{Host}.

(** A token exchange that ends with a fulfilled promise. *)
Definition granted (d : Delivery) : bool :=
  match d with
  | Calls args =>
      token_granted args
      && match JSON_parse (toString (responseBody args)) with
         | Some _ => true
         | None => false
         end
  | _ => false
  end.

End TokenOutcome.

(** [lo <= n <= hi] *)
Definition within (lo hi n : N) : bool := ((lo <=? n) && (n <=? hi))%N.

(** A call to a views service: it carries a zone id and a token. *)
Definition views_call (r : Request) : Prop :=
  exists zoneId token,
    req_headers r = [("Predix-Zone-Id", zoneId); ("Authorization", token)].

Section EndedWell.
Context `{Host}.

(** A logged call whose promise was fulfilled. *)
Definition ended_well (e : Request * Delivery) : Prop :=
  (token_exchange (fst e) /\ granted (snd e) = true) \/
  (views_call (fst e) /\ succeeds (snd e) = true).

End EndedWell.

(** The configuration once the two tokens are in place. *)
Definition config_with (localConfig : LocalConfig) (originToken destinationToken : string)
    : Config :=
  set_destinationToken (set_originalToken (getConfig localConfig) originToken)
    destinationToken.

(** A call to the origin's views service: it carries the origin's zone id
    and token, and it either lists the cards or the decks or adds cards to
    a deck. *)
Definition origin_call (localConfig : LocalConfig) (originToken : string)
    (r : Request) : Prop :=
  req_headers r = [("Predix-Zone-Id", originalViewsZoneId localConfig);
                   ("Authorization", originToken)] /\
  ((req_method r = "GET" /\
    (req_url r = originalViewsUrl localConfig ++ "/api/cards" \/
     req_url r = (originalViewsUrl localConfig ++ "/api/decks")
                 ++ "?filter[include][cards]")) \/
   (req_method r = "POST" /\
    exists deckId,
      req_url r = (originalViewsUrl localConfig ++ "/api/decks")
                  ++ "/" ++ deckId ++ "/cards/add")).

(** A call to the destination's views service: it carries the
    destination's zone id and token and its URL lies under the
    destination's cards or decks. *)
Definition destination_call (localConfig : LocalConfig) (destinationToken : string)
    (r : Request) : Prop :=
  req_headers r = [("Predix-Zone-Id", destinationViewsZoneId localConfig);
                   ("Authorization", destinationToken)] /\
  exists rest,
    req_url r = (destinationViewsUrl localConfig ++ "/api/cards") ++ rest \/
    req_url r = (destinationViewsUrl localConfig ++ "/api/decks") ++ rest.

(** What a views call carries.  A GET or a DELETE carries nothing.  A POST
    to the URL of the destination's cards or decks (a creation) is sent as
    JSON with a truthy body, or without any body; any other POST (tags, or
    the cards of a deck) is sent as JSON with an array that is not empty. *)
Definition carries_what_its_method_needs (localConfig : LocalConfig) (r : Request)
    : Prop :=
  ((req_method r = "GET" \/ req_method r = "DELETE") /\
   req_json r = false /\ req_body r = JNull) \/
  (req_method r = "POST" /\
   (((req_url r = destinationViewsUrl localConfig ++ "/api/cards" \/
      req_url r = destinationViewsUrl localConfig ++ "/api/decks") /\
     ((req_json r = true /\ truthy (req_body r) = true) \/
      (req_json r = false /\ req_body r = JNull))) \/
    (req_json r = true /\ exists t l, req_body r = JTags (t :: l)) \/
    (req_json r = true /\ exists i l, req_body r = JIds (i :: l)))).

(** How an awaited call makes the run fail: the logged call [e], which
    comes after [before], is one the coroutine waits for on its own, and
    its promise was rejected with [x].  It is a token exchange, a listing,
    or a creation at the destination that copies the listing logged just
    before it. *)
Definition stopped_by `{Host} (localConfig : LocalConfig)
    (before : list (Request * Delivery)) (e : Request * Delivery) (x : Exn) : Prop :=
  (token_exchange (fst e) /\
   promise_of requestToken_callback (snd e) = Rejected x) \/
  (exists url zoneId token,
     fst e = views_request url zoneId token None JUndefined /\
     promise_of (requestViewsData_callback url zoneId None JUndefined) (snd e) =
     Rejected x) \/
  (exists earlier fetch url zoneId token,
     before = (earlier ++ [fetch])%list /\
     (url = destinationViewsUrl localConfig ++ "/api/cards" \/
      url = destinationViewsUrl localConfig ++ "/api/decks") /\
     fst e = views_request url zoneId token (Some "POST") (answer_body (snd fetch)) /\
     promise_of (requestViewsData_callback url zoneId (Some "POST")
                   (answer_body (snd fetch))) (snd e) = Rejected x).

(** A logged call whose promise was not fulfilled. *)
Definition ended_badly `{Host} (e : Request * Delivery) : Prop :=
  (token_exchange (fst e) /\ granted (snd e) = false) \/
  (views_call (fst e) /\ succeeds (snd e) = false).

(** A computation that stalls only on a call that did not end well. *)
Definition stalls_on_a_call `{Host} {World A} (m : Co World A) : Prop :=
  forall s,
    fst (m s) = Stalled ->
    exists before e after,
      trace (snd (m s)) = (trace s ++ before ++ e :: after)%list /\ ended_badly e.


(** Further scenarios: a host that parses the texts "null" and "[]" besides
    a token response, and scripts that are cut short. *)
Definition small_host : Host :=
  example_host [JNull; JItems []; JObject [("access_token", "o")];
                JItems origin_cards; JItems origin_decks].

Definition token_text : string := print_json (JObject [("access_token", "o")]).



(** A destination that lists its cards and answers "null" for its decks. *)
Definition clearing_host : Host := example_host [JNull; JItems stale_cards].

Definition null_decks_script : list Delivery :=
  [ok 200 (print_json (JItems stale_cards)); ok 200 "null";
   ok 204 ""; ok 204 ""; ok 204 ""].

(** Both tokens are granted, then the origin's cards cannot be listed. *)
Definition listing_refused_script : list Delivery :=
  [ok 200 token_text; ok 200 token_text; ok 500 ""].

(** Everything goes well up to the tag call of card "1". *)
Definition tag_refused_script : list Delivery :=
  [ok 200 token_text; ok 200 token_text;
   ok 200 (print_json (JItems origin_cards)); ok 200 ""; ok 200 "[]";
   ok 404 ""].

(** * Properties *)

(** ** The two request functions *)

Lemma indexOf_ne_0_starts_with (c : ascii) (s : string) :
  indexOf_ne_0 (String c "") s = false <-> starts_with c s.
Proof.
  unfold indexOf_ne_0, starts_with.
  destruct s as [|a s']; simpl.
  - split; [discriminate | intros [rest E]; discriminate].
  - destruct (ascii_dec c a) as [->|Hne].
    + destruct s'; simpl; split; eauto.
    + destruct (index 0 (String c "") s'); split; try discriminate;
        intros [rest E]; inversion E; congruence.
Qed.

Section RequestFacts.
Context `{Host} {World : Type}.
Variable transport : World -> Request -> Delivery * World.

Lemma requestToken_run uaaUrl credentials (s : St World) :
  requestToken transport uaaUrl credentials s =
  (promise_of requestToken_callback (fst (transport (world s) (token_request uaaUrl credentials))),
   {| world := snd (transport (world s) (token_request uaaUrl credentials));
      trace := trace s ++ [(token_request uaaUrl credentials,
                            fst (transport (world s) (token_request uaaUrl credentials)))] |}).
Proof.
  unfold requestToken, bind, send, ret.
  destruct (transport (world s) (token_request uaaUrl credentials)); reflexivity.
Qed.

Lemma requestViewsData_run url zoneId token method body (s : St World) :
  let req := views_request url zoneId token method body in
  requestViewsData transport url zoneId token method body s =
  (promise_of (requestViewsData_callback url zoneId method body) (fst (transport (world s) req)),
   {| world := snd (transport (world s) req);
      trace := trace s ++ [(req, fst (transport (world s) req))] |}).
Proof.
  unfold requestViewsData, bind, send, ret. cbv zeta.
  destruct (transport (world s) (views_request url zoneId token method body)); reflexivity.
Qed.

Lemma token_granted_iff (args : CallbackArgs) :
  token_granted args = true <->
  error args = None /\
  exists r, response args = Some r /\ Response.statusCode r = 200%N.
Proof.
  unfold token_granted.
  destruct (error args); [split; [discriminate | intros [E _]; discriminate] |].
  destruct (response args) as [r|].
  - rewrite N.eqb_eq. split.
    + intros E. split; [reflexivity | exists r; auto].
    + intros [_ [r' [E1 E2]]]. inversion E1; subst; assumption.
  - split; [discriminate | intros [_ [r [E _]]]; discriminate].
Qed.

Lemma request_failed_iff (args : CallbackArgs) :
  request_failed args = true <->
  error args <> None \/
  exists r, response args = Some r /\
            ~ starts_with "2" (decimal (Response.statusCode r)).
Proof.
  unfold request_failed.
  destruct (error args) as [e|].
  - split; [left; discriminate | reflexivity].
  - destruct (response args) as [r|].
    + pose proof (indexOf_ne_0_starts_with "2" (decimal (Response.statusCode r))) as S.
      destruct (indexOf_ne_0 "2" (decimal (Response.statusCode r))); split.
      * intros _. right. exists r. split; [reflexivity |].
        intros C. apply S in C. discriminate.
      * reflexivity.
      * discriminate.
      * intros [E | [r' [E1 E2]]]; [congruence |].
        inversion E1; subst. exfalso. apply E2, S. reflexivity.
    + split; [discriminate |].
      intros [E | [r [E _]]]; [congruence | discriminate].
Qed.

(** C4, as amended.  Whenever the transport hands the token call's callback
    its arguments, the promise of [requestToken] is fulfilled, with the
    parse of the body, exactly when no error was reported, the status is 200
    and the body is JSON; it is rejected exactly when an error was reported,
    there is no response or the status is not 200, with the message that
    ends in the observed status code, or in "unknown" when there is no
    response.  On a 200 whose body is not JSON it is neither: [JSON.parse]
    throws inside the callback and the promise is left pending. *)
Theorem requestToken_settles uaaUrl credentials (s : St World) (args : CallbackArgs) :
  fst (transport (world s) (token_request uaaUrl credentials)) = Calls args ->
  let p := fst (requestToken transport uaaUrl credentials s) in
  let answered_200 :=
    error args = None /\
    exists r, response args = Some r /\ Response.statusCode r = 200%N in
  (forall v,
     p = Fulfilled v <->
     answered_200 /\ JSON_parse (toString (responseBody args)) = Some v)
  /\
  (forall e,
     p = Rejected e <->
     ~ answered_200 /\
     e = Message
           ("Error retrieving token. Response returned status code "
            ++ match response args with
               | Some r => decimal (Response.statusCode r)
               | None => "unknown"
               end))
  /\
  (answered_200 ->
   JSON_parse (toString (responseBody args)) = None ->
   p = Uncaught SyntaxError).
Proof.
  intros Hd p answered_200. subst p answered_200.
  rewrite requestToken_run. cbn [fst]. rewrite Hd.
  cbn [promise_of]. unfold requestToken_callback.
  pose proof (token_granted_iff args) as T.
  destruct (token_granted args).
  - assert (G : error args = None /\
                exists r, response args = Some r /\ Response.statusCode r = 200%N)
      by (apply T; reflexivity).
    split; [| split].
    + intros v.
      destruct (JSON_parse (toString (responseBody args))) as [v'|]; cbn [settle].
      * split.
        -- intros E. inversion E; subst. split; [exact G | reflexivity].
        -- intros [_ E]. inversion E. reflexivity.
      * split; [discriminate | intros [_ E]; discriminate].
    + intros e. split.
      * destruct (JSON_parse (toString (responseBody args))); discriminate.
      * intros [N _]. contradiction.
    + intros _ ->. reflexivity.
  - split; [| split].
    + intros v. cbn [settle]. split; [discriminate |].
      intros [G _]. apply T in G. discriminate.
    + intros e. cbn [settle status_or_unknown]. split.
      * intros E. inversion E. split; [| reflexivity].
        intros G. apply T in G. discriminate.
      * intros [_ ->]. reflexivity.
    + intros G. apply T in G. discriminate.
Qed.

Lemma request_passed_iff (args : CallbackArgs) :
  request_failed args = false <->
  error args = None /\
  (response args = None \/
   exists r, response args = Some r /\
             starts_with "2" (decimal (Response.statusCode r))).
Proof.
  unfold request_failed.
  destruct (error args) as [e|].
  - split; [discriminate | intros [E _]; discriminate].
  - destruct (response args) as [r|].
    + rewrite indexOf_ne_0_starts_with. split.
      * intros S. split; [reflexivity | right; exists r; auto].
      * intros [_ [E | [r' [E S]]]]; [discriminate | inversion E; subst; exact S].
    + split; [auto | reflexivity].
Qed.

Lemma occurs_in_here (t rest : string) : occurs_in t (t ++ rest).
Proof. exists "", rest. reflexivity. Qed.

Lemma occurs_in_later (t before s : string) :
  occurs_in t s -> occurs_in t (before ++ s).
Proof.
  intros [b [a E]]. exists (before ++ b), a. subst.
  induction before as [|c before IH]; simpl; [reflexivity | now rewrite IH].
Qed.

Lemma append_empty (s : string) : s ++ "" = s.
Proof. induction s as [|c s IH]; simpl; [reflexivity | now rewrite IH]. Qed.

Lemma occurs_in_self (t : string) : occurs_in t t.
Proof. exists "", "". simpl. now rewrite append_empty. Qed.

Lemma failure_message_carries url zoneId method body (args : CallbackArgs) :
  let msg := failure_message url zoneId method body args in
  occurs_in url msg /\
  occurs_in (method_or_GET method) msg /\
  occurs_in zoneId msg /\
  occurs_in (JSON_stringify body) msg /\
  occurs_in (status_or_unknown (response args)) msg /\
  occurs_in (JSON_stringify (responseBody args)) msg.
Proof.
  unfold failure_message.
  repeat split;
    repeat first
      [ apply occurs_in_here | apply occurs_in_self | apply occurs_in_later ].
Qed.

(** C5, as amended.  Whenever the transport hands the callback its
    arguments, the promise of [requestViewsData] is rejected exactly when an
    error was reported or a response is present whose status code, written
    in decimal, does not start with 2; the rejection message then carries
    the URL, the method, the zone id, the request body, the status code
    ("unknown" without a response) and the response body.  It is fulfilled
    exactly when no error was reported, there is no response or its status
    starts with 2, and the body decodes; the value holds the decoded body
    and the response headers (none without a response). *)
Theorem requestViewsData_settles url zoneId token method sent
    (s : St World) (args : CallbackArgs) :
  fst (transport (world s) (views_request url zoneId token method sent)) = Calls args ->
  let p := fst (requestViewsData transport url zoneId token method sent s) in
  let msg := failure_message url zoneId method sent args in
  (forall e,
     p = Rejected e <->
     (error args <> None \/
      exists r, response args = Some r /\
                ~ starts_with "2" (decimal (Response.statusCode r))) /\
     e = Message msg)
  /\
  (occurs_in url msg /\ occurs_in (method_or_GET method) msg /\
   occurs_in zoneId msg /\ occurs_in (JSON_stringify sent) msg /\
   occurs_in (match response args with
              | Some r => decimal (Response.statusCode r)
              | None => "unknown"
              end) msg /\
   occurs_in (JSON_stringify (responseBody args)) msg)
  /\
  (forall v,
     p = Fulfilled v <->
     (error args = None /\
      (response args = None \/
       exists r, response args = Some r /\
                 starts_with "2" (decimal (Response.statusCode r)))) /\
     decode_body (responseBody args) = Some (body v) /\
     headers v = headers_or_empty (response args)).
Proof.
  intros Hd p msg. subst p. rewrite requestViewsData_run. cbn [fst]. rewrite Hd.
  cbn [promise_of]. unfold requestViewsData_callback. fold msg.
  pose proof (request_failed_iff args) as F.
  pose proof (request_passed_iff args) as P.
  split; [| split; [apply failure_message_carries |]].
  - intros e. destruct (request_failed args); cbn [settle].
    + split.
      * intros E. inversion E. split; [apply F; reflexivity | reflexivity].
      * intros [_ ->]. reflexivity.
    + split.
      * destruct (decode_body (responseBody args)); discriminate.
      * intros [C _]. apply F in C. discriminate.
  - intros v. destruct (request_failed args); cbn [settle].
    + split; [discriminate |]. intros [C _]. apply P in C. discriminate.
    + destruct (decode_body (responseBody args)) as [b|]; cbn [settle].
      * split.
        -- intros E. inversion E. cbn. split; [apply P; reflexivity | split; reflexivity].
        -- intros [_ [E1 E2]]. destruct v as [vb vh]. cbn in E1, E2.
           inversion E1. subst. reflexivity.
      * split; [discriminate | intros [_ [E _]]; discriminate].
Qed.

(** C10, as amended.  When the callback is handed neither an error nor a
    response, the promise of [requestViewsData] is never rejected, whatever
    the body.  A body that is not a non-empty string is passed through: the
    promise is fulfilled with it and with empty headers.  A non-empty string
    is parsed first: the promise is fulfilled with the parsed value when the
    text is JSON; when it is not, [JSON.parse] throws inside the callback
    and the promise is left pending. *)
Theorem requestViewsData_without_response url zoneId token method sent
    (s : St World) (args : CallbackArgs) :
  fst (transport (world s) (views_request url zoneId token method sent)) = Calls args ->
  error args = None ->
  response args = None ->
  let p := fst (requestViewsData transport url zoneId token method sent s) in
  let text := truthy (responseBody args) && is_string (responseBody args) in
  (forall e, p <> Rejected e)
  /\
  (text = false ->
   p = Fulfilled {| body := responseBody args; headers := [] |})
  /\
  (forall v,
     text = true ->
     JSON_parse (toString (responseBody args)) = Some v ->
     p = Fulfilled {| body := v; headers := [] |})
  /\
  (text = true ->
   JSON_parse (toString (responseBody args)) = None ->
   p = Uncaught SyntaxError).
Proof.
  intros Hd He Hr p text. subst p text.
  rewrite requestViewsData_run. cbn [fst]. rewrite Hd.
  cbn [promise_of]. unfold requestViewsData_callback, request_failed, decode_body.
  rewrite He, Hr. cbn [headers_or_empty].
  split; [| split; [| split]].
  - intros e.
    destruct (truthy (responseBody args) && is_string (responseBody args));
      [destruct (JSON_parse (toString (responseBody args))) |]; discriminate.
  - intros ->. reflexivity.
  - intros v -> ->. reflexivity.
  - intros -> ->. reflexivity.
Qed.

End RequestFacts.

(** ** Joining promises *)

Lemma Promise_all_fulfilled {A} (ps : list (Promise A)) :
  (exists l, Promise_all ps = Fulfilled l) <-> forallb fulfilled ps = true.
Proof.
  induction ps as [|p ps IH]; simpl.
  - split; eauto.
  - destruct p as [|a|e|e]; simpl; destruct (Promise_all ps) as [|l|e'|e'];
      (split; [intros [l0 E]; try discriminate E | intros F; try discriminate F]);
      try (apply IH; eauto);
      try (apply IH in F as [l0 E]; discriminate E); eauto.
Qed.

Lemma resolve_when_fulfilled_all {A} (ps : list (Promise A)) :
  resolve_when_fulfilled (Promise_all ps) =
  if forallb fulfilled ps then Fulfilled tt else Pending.
Proof.
  pose proof (Promise_all_fulfilled ps) as F.
  destruct (forallb fulfilled ps).
  - destruct (proj2 F eq_refl) as [l ->]. reflexivity.
  - destruct (Promise_all ps) as [|l|e|e]; try reflexivity.
    assert (false = true) by (apply F; eauto). discriminate.
Qed.

Section BulkFacts.
Context `{Host} {World : Type}.
Variable transport : World -> Request -> Delivery * World.

Lemma views_promise_fulfilled zoneId method call d :
  fulfilled (views_promise zoneId method call d) = succeeds d.
Proof.
  unfold views_promise, promise_of, succeeds, requestViewsData_callback.
  destruct d as [|args|e]; try reflexivity.
  destruct (request_failed args); [reflexivity |].
  destruct (decode_body (responseBody args)); reflexivity.
Qed.

Lemma views_promise_uncaught zoneId method call d :
  uncaught (views_promise zoneId method call d) = throws d.
Proof.
  unfold views_promise, promise_of, throws, requestViewsData_callback.
  destruct d as [|args|e]; try reflexivity.
  destruct (request_failed args); [reflexivity |].
  destruct (decode_body (responseBody args)); reflexivity.
Qed.

Lemma each_ext {A B} (f g : A -> B -> IO World B) :
  (forall x acc s, f x acc s = g x acc s) ->
  forall l acc s, each f l acc s = each g l acc s.
Proof.
  intros E l. induction l as [|x l IH]; intros acc s; simpl; [reflexivity |].
  unfold bind. rewrite E. destruct (g x acc s) as [acc' s1]. apply IH.
Qed.

Lemma run_calls_length (reqs : list Request) (w : World) :
  length (fst (run_calls transport reqs w)) = length reqs.
Proof.
  revert w. induction reqs as [|r rs IH]; intros w; simpl; [reflexivity |].
  destruct (transport w r) as [d w1]. specialize (IH w1).
  destruct (run_calls transport rs w1) as [ds w2]. simpl in *. now rewrite IH.
Qed.

(** What a bulk loop does: it issues its calls one after the other, logs
    each with what the transport delivers, and collects one promise per
    call.  No call waits for another. *)
Lemma bulk_run {A} (sel : A -> option (string * JSValue)) zoneId token method :
  forall (l : list A) (acc : list (Promise ViewsResult)) (s : St World),
    each (bulk_step transport sel zoneId token method) l acc s =
    let calls := chosen sel l in
    let reqs := bulk_requests sel zoneId token method l in
    let r := run_calls transport reqs (world s) in
    ((acc ++ map (fun cd => views_promise zoneId method (fst cd) (snd cd))
                 (combine calls (fst r)))%list,
     {| world := snd r; trace := trace s ++ combine reqs (fst r) |}).
Proof.
  unfold bulk_requests.
  induction l as [|x l IH]; intros acc s; cbn [each chosen].
  - cbn. rewrite !app_nil_r. destruct s; reflexivity.
  - unfold bind at 1. unfold bulk_step at 1.
    destruct (sel x) as [call|].
    + unfold bind at 1. rewrite requestViewsData_run. cbv zeta.
      unfold ret at 1. rewrite IH. cbn [world trace map run_calls].
      destruct (transport (world s) (views_request (fst call) zoneId token method (snd call)))
        as [d w1].
      cbn [fst snd].
      destruct (run_calls transport
                  (map (fun call0 => views_request (fst call0) zoneId token method (snd call0))
                       (chosen sel l)) w1) as [ds w2].
      cbn [fst snd combine map]. rewrite <- !app_assoc. reflexivity.
    + unfold ret at 1. apply IH.
Qed.

End BulkFacts.

Section LoopFacts.
Context `{Host} {World : Type}.
Variable transport : World -> Request -> Delivery * World.

Lemma answers_length (s : St World) reqs :
  length (answers transport s reqs) = length reqs.
Proof. apply run_calls_length. Qed.

Lemma forallb_fulfilled_views zoneId method (calls : list (string * JSValue)) ds :
  length ds = length calls ->
  forallb fulfilled
    (map (fun cd => views_promise zoneId method (fst cd) (snd cd)) (combine calls ds)) =
  forallb succeeds ds.
Proof.
  revert ds. induction calls as [|c calls IH]; intros [|d ds] L;
    try discriminate; [reflexivity |].
  cbn [combine map forallb fst snd]. rewrite views_promise_fulfilled.
  rewrite IH; [reflexivity | now inversion L].
Qed.

Lemma existsb_uncaught_views zoneId method (calls : list (string * JSValue)) ds :
  length ds = length calls ->
  existsb uncaught
    (map (fun cd => views_promise zoneId method (fst cd) (snd cd)) (combine calls ds)) =
  existsb throws ds.
Proof.
  revert ds. induction calls as [|c calls IH]; intros [|d ds] L;
    try discriminate; [reflexivity |].
  cbn [combine map existsb fst snd]. rewrite views_promise_uncaught.
  rewrite IH; [reflexivity | now inversion L].
Qed.

(** A bulk loop followed by the join on its promises. *)
Lemma bulk_join {A} (sel : A -> option (string * JSValue)) zoneId token method
    (l : list A) (s : St World) :
  let reqs := bulk_requests sel zoneId token method l in
  (promises <- each (bulk_step transport sel zoneId token method) l [] ;;
   ret (resolve_when_fulfilled (Promise_all promises)))%io s =
  (if forallb succeeds (answers transport s reqs) then Fulfilled tt else Pending,
   after_calls transport s reqs).
Proof.
  cbv zeta. unfold bind. rewrite bulk_run. cbv zeta. unfold ret.
  rewrite resolve_when_fulfilled_all. cbn [app].
  rewrite forallb_fulfilled_views; [reflexivity |].
  rewrite run_calls_length. unfold bulk_requests. now rewrite length_map.
Qed.

Lemma has_tags_nonempty (item : Item) : has_tags item = nonempty (tags item).
Proof. unfold has_tags, nonempty. destruct (tags item) as [[|t l]|]; reflexivity. Qed.

Lemma attributes_cards_nonempty (deck : Item) :
  attributes_cards deck =
  if nonempty (membership_in_attributes deck) then membership_in_attributes deck else None.
Proof.
  unfold attributes_cards, membership_in_attributes, nonempty.
  destruct (attributes deck) as [a|]; [| reflexivity].
  destruct (attr_cards a) as [[|c l]|]; reflexivity.
Qed.

Lemma deck_cards_nonempty (deck : Item) :
  deck_cards deck = if nonempty (cards deck) then cards deck else None.
Proof. unfold deck_cards, nonempty. destruct (cards deck) as [[|c l]|]; reflexivity. Qed.

Lemma deleteData_requests url zoneId token (items : list Item) :
  bulk_requests (fun item => Some (url ++ "/" ++ id item, JUndefined))
    zoneId token (Some "DELETE") items =
  delete_requests url zoneId token items.
Proof.
  unfold bulk_requests, delete_requests.
  induction items as [|x l IH]; cbn [chosen map]; [reflexivity | now rewrite IH].
Qed.

Lemma addTags_each_bulk url list zoneId token acc (s : St World) :
  each (fun item promises =>
          if has_tags item then
            (promise <- requestViewsData transport (url ++ "/" ++ id item ++ "/tags")
                          zoneId token (Some "POST") (tag_values item) ;;
             ret (promises ++ [promise])%list)%io
          else ret promises) list acc s =
  each (bulk_step transport (tag_call url) zoneId token (Some "POST")) list acc s.
Proof.
  apply each_ext. intros x a s0. unfold bulk_step, tag_call.
  destruct (has_tags x); reflexivity.
Qed.

Lemma chosen_filter_map {A B} (p : A -> bool) (f : A -> B) (l : list A) :
  chosen (fun x => if p x then Some (f x) else None) l = map f (filter p l).
Proof.
  induction l as [|x l IH]; cbn [chosen filter map]; [reflexivity |].
  destruct (p x); cbn [map]; now rewrite IH.
Qed.

Lemma addTags_requests url zoneId token (list : list Item) :
  bulk_requests (tag_call url) zoneId token (Some "POST") list =
  tag_requests url zoneId token list.
Proof.
  unfold bulk_requests, tag_requests, tag_call.
  rewrite chosen_filter_map, map_map.
  rewrite (filter_ext _ _ has_tags_nonempty).
  apply map_ext_in. intros x Hx. apply filter_In in Hx as [_ Hx].
  unfold tag_values, tags_or_nil. unfold nonempty in Hx.
  destruct (tags x) as [[|t ts]|]; try discriminate. reflexivity.
Qed.

Lemma association_call_requests membership url zoneId token (decks : list Item) :
  bulk_requests (association_call membership url) zoneId token (Some "POST") decks =
  association_requests membership url zoneId token decks.
Proof.
  unfold bulk_requests, association_requests, association_call.
  rewrite chosen_filter_map, map_map. reflexivity.
Qed.

Lemma associateOrigin_bulk config decks acc (s : St World) :
  each (fun deck dropped =>
          match attributes_cards deck with
          | Some l =>
              (promise <- requestViewsData transport
                            (originalDecksUrl config ++ "/" ++ id deck ++ "/cards/add")
                            (originalViewsZoneId (local config))
                            (originalToken config) (Some "POST") (card_ids l) ;;
               ret (dropped ++ [promise])%list)%io
          | None => ret dropped
          end) decks acc s =
  each (bulk_step transport
          (association_call membership_in_attributes (originalDecksUrl config))
          (originalViewsZoneId (local config)) (originalToken config) (Some "POST"))
       decks acc s.
Proof.
  apply each_ext. intros x a s0. unfold bulk_step, association_call.
  rewrite attributes_cards_nonempty.
  destruct (nonempty (membership_in_attributes x)) eqn:N; [| reflexivity].
  destruct (membership_in_attributes x); [reflexivity | discriminate].
Qed.

Lemma associateDestination_bulk config decks acc (s : St World) :
  each (fun deck promises =>
          match deck_cards deck with
          | Some l =>
              (promise <- requestViewsData transport
                            (destinationDecksUrl config ++ "/" ++ id deck ++ "/cards/add")
                            (destinationViewsZoneId (local config))
                            (destinationToken config) (Some "POST") (card_ids l) ;;
               ret (promises ++ [promise])%list)%io
          | None => ret promises
          end) decks acc s =
  each (bulk_step transport (association_call cards (destinationDecksUrl config))
          (destinationViewsZoneId (local config)) (destinationToken config) (Some "POST"))
       decks acc s.
Proof.
  apply each_ext. intros x a s0. unfold bulk_step, association_call.
  rewrite deck_cards_nonempty.
  destruct (nonempty (cards x)) eqn:N; [| reflexivity].
  destruct (cards x); [reflexivity | discriminate].
Qed.

(** The four bulk operations, as functions of what the transport delivers. *)
Lemma deleteData_run items url zoneId token type (s : St World) :
  let reqs := delete_requests url zoneId token items in
  deleteData transport items url zoneId token type s =
  (if forallb succeeds (answers transport s reqs) then Fulfilled tt else Pending,
   after_calls transport s reqs).
Proof.
  cbv zeta. rewrite <- deleteData_requests. rewrite <- bulk_join.
  reflexivity.
Qed.

Lemma addTags_run url list zoneId token (s : St World) :
  let reqs := tag_requests url zoneId token list in
  addTags transport url list zoneId token s =
  (if forallb succeeds (answers transport s reqs) then Fulfilled tt else Pending,
   after_calls transport s reqs).
Proof.
  cbv zeta. rewrite <- addTags_requests. rewrite <- bulk_join.
  unfold addTags, addTags_each. unfold bind at 1. rewrite addTags_each_bulk. reflexivity.
Qed.

Lemma associateDestination_run config decks (s : St World) :
  let reqs := association_requests cards (destinationDecksUrl config)
                (destinationViewsZoneId (local config)) (destinationToken config) decks in
  associateDestination transport config decks s =
  (if forallb succeeds (answers transport s reqs) then Fulfilled tt else Pending,
   after_calls transport s reqs).
Proof.
  cbv zeta. rewrite <- association_call_requests. rewrite <- bulk_join.
  unfold associateDestination, associateDestination_each. unfold bind at 1.
  rewrite associateDestination_bulk. reflexivity.
Qed.

Lemma associateOrigin_run config decks (s : St World) :
  let reqs := association_requests membership_in_attributes (originalDecksUrl config)
                (originalViewsZoneId (local config)) (originalToken config) decks in
  snd (associateOrigin transport config decks s) = after_calls transport s reqs.
Proof.
  cbv zeta. rewrite <- association_call_requests.
  unfold associateOrigin. rewrite associateOrigin_bulk, bulk_run. reflexivity.
Qed.

Lemma ltb_add (n m : nat) : (n <? n + m)%nat = (0 <? m)%nat.
Proof.
  destruct m as [|m].
  - now rewrite Nat.add_0_r, Nat.ltb_irrefl.
  - cbn [Nat.ltb Nat.leb]. apply Nat.ltb_lt. lia.
Qed.

Lemma after_calls_length (s : St World) reqs :
  length (trace (after_calls transport s reqs)) = length (trace s) + length reqs.
Proof.
  unfold after_calls. cbn [trace].
  rewrite length_app, length_combine, answers_length. lia.
Qed.

(** Which of the dropped promises were left pending by a throwing
    callback. *)
Lemma associateOrigin_dropped config decks (s : St World) :
  let reqs := association_requests membership_in_attributes (originalDecksUrl config)
                (originalViewsZoneId (local config)) (originalToken config) decks in
  existsb uncaught (fst (associateOrigin transport config decks s)) =
  existsb throws (answers transport s reqs).
Proof.
  cbv zeta. rewrite <- association_call_requests.
  unfold associateOrigin. rewrite associateOrigin_bulk, bulk_run. cbv zeta.
  cbn [fst app]. unfold answers. apply existsb_uncaught_views.
  rewrite run_calls_length. unfold bulk_requests. now rewrite length_map.
Qed.

(** The association stage, as a function of what the transport delivers. *)
Lemma associateCards_run config decks (s : St World) :
  let origin := association_requests membership_in_attributes (originalDecksUrl config)
                  (originalViewsZoneId (local config)) (originalToken config) decks in
  let destination := association_requests cards (destinationDecksUrl config)
                       (destinationViewsZoneId (local config)) (destinationToken config)
                       decks in
  let s1 := after_calls transport s origin in
  associateCards transport config decks s =
  (if (0 <? length destination)%nat && existsb throws (answers transport s origin)
   then Stalled
   else if forallb succeeds (answers transport s1 destination) then Next tt else Stalled,
   after_calls transport s1 destination).
Proof.
  cbv zeta. unfold associateCards, co_bind, perform, yield_beside.
  pose proof (associateOrigin_run config decks s) as O. cbv zeta in O.
  pose proof (associateOrigin_dropped config decks s) as D. cbv zeta in D.
  destruct (associateOrigin transport config decks s) as [dropped s1].
  cbn [fst snd] in O, D. subst s1. rewrite D.
  rewrite associateDestination_run. cbv zeta.
  rewrite !after_calls_length, ltb_add.
  destruct (_ && _); [reflexivity |].
  destruct (forallb succeeds _); reflexivity.
Qed.

End LoopFacts.

(** ** The bulk operations *)

Section BulkClaims.
Context `{Host} {World : Type}.
Variable transport : World -> Request -> Delivery * World.

Lemma fails_not_succeeds (d : Delivery) : fails d = true -> succeeds d = false.
Proof.
  destruct d as [|args|e]; cbn; try reflexivity. intros ->. reflexivity.
Qed.

Lemma after_calls_nil (s : St World) : after_calls transport s [] = s.
Proof. unfold after_calls, answers. cbn. rewrite app_nil_r. destruct s; reflexivity. Qed.

Lemma after_calls_requests (s : St World) reqs :
  map fst (trace (after_calls transport s reqs)) = (map fst (trace s) ++ reqs)%list.
Proof.
  unfold after_calls. cbn [trace]. rewrite map_app. f_equal.
  pose proof (answers_length transport s reqs) as L.
  revert L. generalize (answers transport s reqs). clear.
  induction reqs as [|r reqs IH]; intros [|d ds] L; try discriminate; [reflexivity |].
  cbn. f_equal. apply IH. now inversion L.
Qed.

Lemma join_fulfilled_iff (ds : list Delivery) :
  (if forallb succeeds ds then Fulfilled tt else @Pending unit) = Fulfilled tt <->
  forall d, In d ds -> succeeds d = true.
Proof.
  rewrite <- forallb_forall. destruct (forallb succeeds ds); split; auto; discriminate.
Qed.

Lemma join_pending_of_failure (ds : list Delivery) :
  (exists d, In d ds /\ fails d = true) ->
  (if forallb succeeds ds then Fulfilled tt else @Pending unit) = Pending.
Proof.
  intros [d [I F]]. destruct (forallb succeeds ds) eqn:A; [| reflexivity].
  rewrite forallb_forall in A. apply A in I. apply fails_not_succeeds in F. congruence.
Qed.

(** C1.  What the code does when one of the launched calls fails: in
    [deleteData], [addTags] and the destination association loop alike,
    every call of the batch is still issued, and the promise of the batch
    stays pending; it is not rejected. *)
Theorem bulk_failure_is_not_reported items url zoneId token type list config decks
    (s : St World) :
  (let reqs := delete_requests url zoneId token items in
   (exists d, In d (answers transport s reqs) /\ fails d = true) ->
   fst (deleteData transport items url zoneId token type s) = Pending /\
   map fst (trace (snd (deleteData transport items url zoneId token type s))) =
   (map fst (trace s) ++ reqs)%list /\
   length reqs = length items)
  /\
  (let reqs := tag_requests url zoneId token list in
   (exists d, In d (answers transport s reqs) /\ fails d = true) ->
   fst (addTags transport url list zoneId token s) = Pending /\
   map fst (trace (snd (addTags transport url list zoneId token s))) =
   (map fst (trace s) ++ reqs)%list)
  /\
  (let reqs := association_requests cards (destinationDecksUrl config)
                 (destinationViewsZoneId (local config)) (destinationToken config) decks in
   (exists d, In d (answers transport s reqs) /\ fails d = true) ->
   fst (associateDestination transport config decks s) = Pending /\
   map fst (trace (snd (associateDestination transport config decks s))) =
   (map fst (trace s) ++ reqs)%list).
Proof.
  cbv zeta. rewrite deleteData_run, addTags_run, associateDestination_run.
  cbn [fst snd]. rewrite !after_calls_requests.
  repeat split; try (apply join_pending_of_failure; assumption).
  unfold delete_requests. apply length_map.
Qed.

(** C8, as amended.  [deleteData] and [addTags] issue the calls of their
    batch and their promise is fulfilled exactly when every one of those
    calls has settled successfully; for the empty list the promise is
    fulfilled at once and nothing is issued. *)
Theorem bulk_resolves_once_all_succeed items url zoneId token type list (s : St World) :
  (let reqs := delete_requests url zoneId token items in
   snd (deleteData transport items url zoneId token type s) = after_calls transport s reqs /\
   (fst (deleteData transport items url zoneId token type s) = Fulfilled tt <->
    forall d, In d (answers transport s reqs) -> succeeds d = true))
  /\
  (let reqs := tag_requests url zoneId token list in
   snd (addTags transport url list zoneId token s) = after_calls transport s reqs /\
   (fst (addTags transport url list zoneId token s) = Fulfilled tt <->
    forall d, In d (answers transport s reqs) -> succeeds d = true))
  /\ deleteData transport [] url zoneId token type s = (Fulfilled tt, s)
  /\ addTags transport url [] zoneId token s = (Fulfilled tt, s).
Proof.
  cbv zeta. rewrite !deleteData_run, !addTags_run. cbn [fst snd].
  repeat split; try apply join_fulfilled_iff; try (apply join_fulfilled_iff; assumption).
  - cbn. now rewrite after_calls_nil.
  - cbn. now rewrite after_calls_nil.
Qed.

(** C6.  [addTags] issues, in list order, exactly one POST per item whose
    tag list is non-empty, to [url/id/tags] with the values of the item's
    tags, and nothing for the other items; those do not count against the
    batch, whose promise is fulfilled as soon as the issued calls end well. *)
Theorem addTags_posts_once_per_tagged_item url list zoneId token (s : St World) :
  let posts :=
    map (fun item =>
           {| req_url := url ++ "/" ++ id item ++ "/tags";
              req_headers := [("Predix-Zone-Id", zoneId); ("Authorization", token)];
              req_method := "POST";
              req_json := true;
              req_body := JTags (map (fun tag => {| value := value tag; tag_other := [] |})
                                     (tags_or_nil item)) |})
        (filter (fun item => match tags item with Some (_ :: _) => true | _ => false end)
                list) in
  let s' := snd (addTags transport url list zoneId token s) in
  trace s' = (trace s ++ combine posts (answers transport s posts))%list
  /\ length (answers transport s posts) = length posts
  /\ (fst (addTags transport url list zoneId token s) = Fulfilled tt <->
      forall d, In d (answers transport s posts) -> succeeds d = true)
  /\ ((forall item, In item list -> tags item = None \/ tags item = Some []) ->
      addTags transport url list zoneId token s = (Fulfilled tt, s)).
Proof.
  cbv zeta. rewrite addTags_run. cbn [fst snd]. fold (tag_requests url zoneId token list).
  split; [reflexivity |]. split; [apply answers_length |].
  split; [apply join_fulfilled_iff |].
  intros E.
  assert (N : tag_requests url zoneId token list = []).
  { unfold tag_requests. clear -E. induction list as [|x l IH]; [reflexivity |].
    cbn [filter]. destruct (E x (or_introl eq_refl)) as [-> | ->]; cbn;
      apply IH; intros i I; apply E; now right. }
  rewrite N. cbn. now rewrite after_calls_nil.
Qed.

(** C3, as amended.  The destination loop issues, in list order, exactly
    one POST per deck whose top-level card list [deck.cards] is non-empty,
    to [destinationDecksUrl/id/cards/add] with the ids of those cards, and
    nothing for a deck whose [deck.cards] is empty or absent;
    [deck.attributes.cards] is not looked at. *)
Theorem associateDestination_posts_once_per_deck_with_cards config decks (s : St World) :
  let posts :=
    map (fun deck =>
           {| req_url := destinationDecksUrl config ++ "/" ++ id deck ++ "/cards/add";
              req_headers := [("Predix-Zone-Id", destinationViewsZoneId (local config));
                              ("Authorization", destinationToken config)];
              req_method := "POST";
              req_json := true;
              req_body := JIds (map card_id
                                  (match cards deck with Some l => l | None => [] end)) |})
        (filter (fun deck => match cards deck with Some (_ :: _) => true | _ => false end)
                decks) in
  let s' := snd (associateDestination transport config decks s) in
  trace s' = (trace s ++ combine posts (answers transport s posts))%list
  /\ length (answers transport s posts) = length posts
  /\ (fst (associateDestination transport config decks s) = Fulfilled tt <->
      forall d, In d (answers transport s posts) -> succeeds d = true)
  /\ ((forall deck, In deck decks -> cards deck = None \/ cards deck = Some []) ->
      associateDestination transport config decks s = (Fulfilled tt, s)).
Proof.
  cbv zeta. rewrite associateDestination_run. cbn [fst snd].
  fold (association_requests cards (destinationDecksUrl config)
          (destinationViewsZoneId (local config)) (destinationToken config) decks).
  split; [reflexivity |]. split; [apply answers_length |].
  split; [apply join_fulfilled_iff |].
  intros E.
  assert (N : association_requests cards (destinationDecksUrl config)
                (destinationViewsZoneId (local config)) (destinationToken config) decks
              = []).
  { unfold association_requests. clear -E. induction decks as [|x l IH]; [reflexivity |].
    cbn [filter]. destruct (E x (or_introl eq_refl)) as [-> | ->]; cbn;
      apply IH; intros i I; apply E; now right. }
  rewrite N. cbn. now rewrite after_calls_nil.
Qed.

(** A deck whose membership sits in [deck.attributes.cards] only: the
    destination loop issues nothing for it, the origin loop one call. *)
Lemma associateDestination_reads_deck_cards config deck (s : St World) :
  cards deck = None ->
  nonempty (membership_in_attributes deck) = true ->
  associateDestination transport config [deck] s = (Fulfilled tt, s)
  /\ map fst (trace (snd (associateOrigin transport config [deck] s))) =
     (map fst (trace s) ++
      association_requests membership_in_attributes (originalDecksUrl config)
        (originalViewsZoneId (local config)) (originalToken config) [deck])%list
  /\ length (association_requests membership_in_attributes (originalDecksUrl config)
               (originalViewsZoneId (local config)) (originalToken config) [deck]) = 1.
Proof.
  intros C M. rewrite associateDestination_run, associateOrigin_run.
  rewrite after_calls_requests.
  unfold association_requests. cbn [filter]. rewrite C, M. cbn.
  rewrite after_calls_nil. auto.
Qed.


Lemma throws_not_succeeds (d : Delivery) : throws d = true -> succeeds d = false.
Proof.
  destruct d as [|args|e]; cbn; try reflexivity.
  destruct (request_failed args); [reflexivity |].
  destruct (decode_body (responseBody args)); [discriminate | reflexivity].
Qed.


End BulkClaims.

(** ** The coroutine *)

Section LogRules.
Context `{Host} {World : Type}.
Variable transport : World -> Request -> Delivery * World.

Lemma logs_ret {A} P (a : A) : logs P (@co_ret World A a).
Proof. intros s. exists []. cbn. now rewrite app_nil_r. Qed.

Lemma logs_eval {A} P (r : Run A) : logs P (@eval World A r).
Proof. intros s. exists []. cbn. now rewrite app_nil_r. Qed.

Lemma logs_bind {A B} P (m : Co World A) (k : A -> Co World B) :
  logs P m -> (forall a, logs P (k a)) -> logs P (co_bind m k).
Proof.
  intros Hm Hk s. unfold co_bind.
  destruct (Hm s) as [n1 [E1 F1]].
  destruct (m s) as [[a| |] s1]; cbn [snd] in *; eauto.
  destruct (Hk a s1) as [n2 [E2 F2]].
  exists (n1 ++ n2)%list. split.
  - now rewrite E2, E1, app_assoc.
  - apply Forall_app; auto.
Qed.

Lemma logs_yield {A} P (m : IO World (Promise A)) : io_logs P m -> logs P (yield m).
Proof.
  intros Hm s. unfold yield. destruct (Hm s) as [n [E F]].
  destruct (m s) as [p s1]. eauto.
Qed.

Lemma logs_yield_beside {A B} P (others : list (Promise B)) (m : IO World (Promise A)) :
  io_logs P m -> logs P (yield_beside others m).
Proof.
  intros Hm s. unfold yield_beside. destruct (Hm s) as [n [E F]].
  destruct (m s) as [p s1]. cbn [snd] in *. eauto.
Qed.

Lemma logs_perform {A} P (m : IO World A) : io_logs P m -> logs P (perform m).
Proof.
  intros Hm s. unfold perform. destruct (Hm s) as [n [E F]].
  destruct (m s) as [p s1]. eauto.
Qed.

Lemma io_logs_requestToken P uaaUrl credentials :
  P (token_request uaaUrl credentials) ->
  io_logs P (requestToken transport uaaUrl credentials).
Proof.
  intros HP s. rewrite requestToken_run. cbn [snd trace]. eexists. split; [reflexivity |].
  repeat constructor. exact HP.
Qed.

Lemma io_logs_requestViewsData P url zoneId token method sent :
  P (views_request url zoneId token method sent) ->
  io_logs P (requestViewsData transport url zoneId token method sent).
Proof.
  intros HP s. rewrite requestViewsData_run. cbn [snd trace]. eexists. split; [reflexivity |].
  repeat constructor. exact HP.
Qed.

Lemma Forall_combine_fst {A B} (P : A -> Prop) (l : list A) (l' : list B) :
  Forall P l -> Forall (fun e => P (fst e)) (combine l l').
Proof.
  intros F. revert l'. induction F as [|x l Px F IH]; intros [|y l']; cbn; constructor; auto.
Qed.

Lemma after_calls_logs (P : Request -> Prop) (s : St World) reqs :
  Forall P reqs ->
  exists new, trace (after_calls transport s reqs) = (trace s ++ new)%list /\
              Forall (fun e => P (fst e)) new.
Proof.
  intros F. eexists. split; [reflexivity |]. now apply Forall_combine_fst.
Qed.

Lemma io_logs_addTags url list zoneId token :
  io_logs get_or_post (addTags transport url list zoneId token).
Proof.
  intros s. rewrite addTags_run. cbn [snd]. apply after_calls_logs.
  unfold tag_requests. apply Forall_map, Forall_forall. intros; right; reflexivity.
Qed.

Lemma io_logs_associateOrigin config decks :
  io_logs get_or_post (associateOrigin transport config decks).
Proof.
  intros s. rewrite associateOrigin_run. apply after_calls_logs.
  unfold association_requests. apply Forall_map, Forall_forall. intros; right; reflexivity.
Qed.

Lemma io_logs_associateDestination config decks :
  io_logs get_or_post (associateDestination transport config decks).
Proof.
  intros s. rewrite associateDestination_run. cbn [snd]. apply after_calls_logs.
  unfold association_requests. apply Forall_map, Forall_forall. intros; right; reflexivity.
Qed.

Ltac log_steps :=
  repeat first
    [ apply logs_bind; [| intros ?]
    | apply logs_ret
    | apply logs_eval
    | apply logs_yield
    | apply logs_yield_beside
    | apply logs_perform
    | apply io_logs_addTags
    | apply io_logs_associateOrigin
    | apply io_logs_associateDestination
    | apply io_logs_requestViewsData; first [left; reflexivity | right; reflexivity]
    | apply io_logs_requestToken; eexists; eexists; reflexivity ].

Lemma authenticate_logs config : logs token_exchange (authenticate transport config).
Proof. unfold authenticate. log_steps. Qed.

Lemma migrateCards_logs config : logs get_or_post (migrateCards transport config).
Proof. unfold migrateCards. log_steps. Qed.

Lemma migrateDecks_logs config : logs get_or_post (migrateDecks transport config).
Proof. unfold migrateDecks. log_steps. Qed.

Lemma associateCards_logs config decks :
  logs get_or_post (associateCards transport config decks).
Proof. unfold associateCards. log_steps. Qed.

End LogRules.

Section Pipeline.
Context `{Host} {World : Type}.
Variable transport : World -> Request -> Delivery * World.

Lemma yield_requestViewsData url zoneId token method sent (s : St World) :
  let req := views_request url zoneId token method sent in
  yield (requestViewsData transport url zoneId token method sent) s =
  (await (views_promise zoneId method (url, sent) (fst (transport (world s) req))),
   after_calls transport s [req]).
Proof.
  cbv zeta. unfold yield. rewrite requestViewsData_run. cbv zeta.
  unfold after_calls, answers, views_promise. cbn [run_calls fst snd].
  destruct (transport (world s) (views_request url zoneId token method sent)); reflexivity.
Qed.

Lemma yield_requestToken uaaUrl credentials (s : St World) :
  let req := token_request uaaUrl credentials in
  yield (requestToken transport uaaUrl credentials) s =
  (await (promise_of requestToken_callback (fst (transport (world s) req))),
   after_calls transport s [req]).
Proof.
  cbv zeta. unfold yield. rewrite requestToken_run.
  unfold after_calls, answers. cbn [run_calls fst snd].
  destruct (transport (world s) (token_request uaaUrl credentials)); reflexivity.
Qed.

Lemma combine_answers_fst (s : St World) reqs :
  map fst (combine reqs (answers transport s reqs)) = reqs.
Proof.
  pose proof (answers_length transport s reqs) as L.
  revert L. generalize (answers transport s reqs).
  induction reqs as [|r reqs IH]; intros [|d ds] L; try discriminate; [reflexivity |].
  cbn. f_equal. apply IH. now inversion L.
Qed.

Lemma combine_answers_succeed (s : St World) reqs :
  forallb succeeds (answers transport s reqs) = true ->
  Forall (fun e => succeeds (snd e) = true) (combine reqs (answers transport s reqs)).
Proof.
  generalize (answers transport s reqs). intros ds. revert ds.
  induction reqs as [|r reqs IH]; intros [|d ds] F; cbn; constructor.
  - cbn in *. now apply andb_true_iff in F.
  - apply IH. cbn in F. now apply andb_true_iff in F.
Qed.

Lemma after_calls_one (s : St World) (r : Request) :
  after_calls transport s [r] =
  {| world := snd (transport (world s) r);
     trace := trace s ++ [(r, fst (transport (world s) r))] |}.
Proof.
  unfold after_calls, answers. cbn [run_calls].
  destruct (transport (world s) r); reflexivity.
Qed.

Lemma token_promise_fulfilled (d : Delivery) :
  fulfilled (promise_of requestToken_callback d) = granted d.
Proof.
  destruct d as [|args|e]; try reflexivity.
  cbn. unfold requestToken_callback.
  destruct (token_granted args); [| reflexivity].
  destruct (JSON_parse (toString (responseBody args))); reflexivity.
Qed.

Lemma authenticate_inv config (s s' : St World) config' :
  authenticate transport config s = (Next config', s') ->
  let first := token_request (originalUaaUrl (local config))
                 (originalUaaCredentials (local config)) in
  let second := token_request (destinationUaaUrl (local config))
                  (destinationUaaCredentials (local config)) in
  exists d1 d2 parsed1 parsed2 bearer1 bearer2,
    trace s' = (trace s ++ [(first, d1); (second, d2)])%list /\
    promise_of requestToken_callback d1 = Fulfilled parsed1 /\
    promise_of requestToken_callback d2 = Fulfilled parsed2 /\
    access_token parsed1 = Next bearer1 /\
    access_token parsed2 = Next bearer2 /\
    config' = set_destinationToken
                (set_originalToken config ("Bearer " ++ bearer1))
                ("Bearer " ++ bearer2).
Proof.
  cbv zeta. unfold authenticate, co_bind, eval, co_ret.
  rewrite yield_requestToken. cbv zeta.
  set (first := token_request (originalUaaUrl (local config)) _).
  set (d1 := fst (transport (world s) first)).
  destruct (promise_of requestToken_callback d1) as [|p1|e1|e1] eqn:P1;
    cbn [await]; try discriminate.
  destruct (access_token p1) as [t1| |] eqn:T1; try discriminate.
  rewrite yield_requestToken. cbv zeta. cbn [local set_originalToken].
  set (second := token_request (destinationUaaUrl (local config)) _).
  set (s1 := after_calls transport s [first]).
  set (d2 := fst (transport (world s1) second)).
  destruct (promise_of requestToken_callback d2) as [|p2|e2|e2] eqn:P2;
    cbn [await]; try discriminate.
  destruct (access_token p2) as [t2| |] eqn:T2; try discriminate.
  intros E. inversion E; subst. clear E.
  exists d1, d2, p1, p2, t1, t2.
  repeat split; auto.
  rewrite after_calls_one. cbn [trace]. unfold s1 at 1. rewrite after_calls_one.
  cbn [trace]. rewrite <- app_assoc. reflexivity.
Qed.

Lemma items_of_Next (b : JSValue) (l : list Item) :
  items_of b = Next l -> l = elements b.
Proof. destruct b; cbn; intros E; inversion E; reflexivity. Qed.

Lemma await_views_body zoneId method call (d : Delivery) (v : ViewsResult) :
  await (views_promise zoneId method call d) = Next v ->
  body v = answer_body d /\ succeeds d = true.
Proof.
  unfold views_promise, promise_of, answer_body, succeeds, requestViewsData_callback.
  destruct d as [|args|e]; cbn; try discriminate.
  destruct (request_failed args); cbn; [discriminate |].
  destruct (decode_body (responseBody args)); cbn; [| discriminate].
  intros E. inversion E. auto.
Qed.

Lemma token_obtained_of (d : Delivery) (parsed : JSValue) (bearer : string) :
  promise_of requestToken_callback d = Fulfilled parsed ->
  access_token parsed = Next bearer ->
  token_obtained d = "Bearer " ++ bearer.
Proof. unfold token_obtained. intros -> ->. reflexivity. Qed.

Lemma delete_requests_are_deletes url zoneId token items (entries : list (Request * Delivery)) :
  map fst entries = delete_requests url zoneId token items ->
  Forall (fun e => req_method (fst e) = "DELETE") entries.
Proof.
  intros M. apply (proj1 (Forall_map fst (fun r => req_method r = "DELETE") entries)).
  rewrite M. unfold delete_requests. apply Forall_map, Forall_forall. reflexivity.
Qed.

(** The clearing stage, in all the ways it can end. *)
Lemma clearDestinationData_shape config (s : St World) :
  clearDestination (local config) = true ->
  let zone := destinationViewsZoneId (local config) in
  let token := destinationToken config in
  let passed := exists a, fst (clearDestinationData transport config s) = Next a in
  exists gets cardDeletes deckDeletes,
    trace (snd (clearDestinationData transport config s)) =
    (trace s ++ gets ++ cardDeletes ++ deckDeletes)%list /\
    Forall (fun e => req_method (fst e) = "GET") gets /\
    Forall (fun e => req_method (fst e) = "DELETE") (cardDeletes ++ deckDeletes) /\
    (deckDeletes <> [] -> Forall (fun e => succeeds (snd e) = true) cardDeletes) /\
    (passed ->
     Forall (fun e => succeeds (snd e) = true) cardDeletes /\
     Forall (fun e => succeeds (snd e) = true) deckDeletes) /\
    (passed \/ (cardDeletes ++ deckDeletes)%list <> [] ->
     exists cardListing deckListing,
       gets = [cardListing; deckListing] /\
       fst cardListing = views_request (destinationCardsUrl config) zone token None JUndefined /\
       fst deckListing = views_request (destinationDecksUrl config) zone token None JUndefined /\
       map fst cardDeletes =
         delete_requests (destinationCardsUrl config) zone token
           (listing (snd cardListing)) /\
       (passed \/ deckDeletes <> [] ->
        map fst deckDeletes =
          delete_requests (destinationDecksUrl config) zone token
            (listing (snd deckListing)))).
Proof.
  intros Flag. cbv zeta. unfold clearDestinationData. rewrite Flag.
  unfold co_bind, eval.
  rewrite yield_requestViewsData. cbv zeta. rewrite after_calls_one.
  set (g1 := views_request (destinationCardsUrl config) _ _ None JUndefined).
  set (d1 := fst (transport (world s) g1)).
  set (s1 := {| world := snd (transport (world s) g1); trace := trace s ++ [(g1, d1)] |}).
  assert (G1 : Forall (fun e => req_method (fst e) = "GET") [(g1, d1)])
    by (repeat constructor).
  destruct (await (views_promise _ None (_, JUndefined) d1)) as [fetchedCards| |] eqn:A1.
  2-3: exists [(g1, d1)], [], []; cbn [snd fst trace app];
       (split; [reflexivity |]); (split; [exact G1 |]); (split; [constructor |]);
       (split; [intros N; now contradiction N |]);
       (split; [intros [a E]; discriminate E |]);
       intros [[a E] | N]; [discriminate E | now contradiction N].
  apply await_views_body in A1 as [B1 _].
  rewrite yield_requestViewsData. cbv zeta. rewrite after_calls_one.
  set (g2 := views_request (destinationDecksUrl config) _ _ None JUndefined).
  set (d2 := fst (transport (world s1) g2)).
  set (s2 := {| world := snd (transport (world s1) g2); trace := trace s1 ++ [(g2, d2)] |}).
  assert (T2 : trace s2 = (trace s ++ [(g1, d1); (g2, d2)])%list).
  { unfold s2, s1. cbn [trace]. now rewrite <- app_assoc. }
  assert (G2 : Forall (fun e => req_method (fst e) = "GET") [(g1, d1); (g2, d2)])
    by (repeat constructor).
  destruct (await (views_promise _ None (_, JUndefined) d2)) as [fetchedDecks| |] eqn:A2.
  2-3: exists [(g1, d1); (g2, d2)], [], []; cbn [snd fst]; rewrite T2, app_nil_r;
       (split; [reflexivity |]); (split; [exact G2 |]); (split; [constructor |]);
       (split; [intros N; now contradiction N |]);
       (split; [intros [a E]; discriminate E |]);
       intros [[a E] | N]; [discriminate E | now contradiction N].
  apply await_views_body in A2 as [B2 _].
  destruct (items_of (body fetchedCards)) as [staleCards| |] eqn:I1.
  2-3: exists [(g1, d1); (g2, d2)], [], []; cbn [snd fst]; rewrite T2, app_nil_r;
       (split; [reflexivity |]); (split; [exact G2 |]); (split; [constructor |]);
       (split; [intros N; now contradiction N |]);
       (split; [intros [a E]; discriminate E |]);
       intros [[a E] | N]; [discriminate E | now contradiction N].
  apply items_of_Next in I1. rewrite B1 in I1. fold (listing d1) in I1. subst staleCards.
  unfold yield. rewrite deleteData_run. cbv zeta.
  set (dc := delete_requests (destinationCardsUrl config) _ _ (listing d1)).
  set (s3 := after_calls transport s2 dc).
  set (cd := combine dc (answers transport s2 dc)).
  assert (T3 : trace s3 = (trace s ++ [(g1, d1); (g2, d2)] ++ cd)%list).
  { unfold s3, after_calls. cbn [trace]. now rewrite T2, <- app_assoc. }
  assert (Mc : map fst cd = dc) by apply combine_answers_fst.
  assert (Dc : Forall (fun e => req_method (fst e) = "DELETE") cd)
    by (eapply delete_requests_are_deletes; exact Mc).
  destruct (forallb succeeds (answers transport s2 dc)) eqn:S1; cbn [await].
  2: { exists [(g1, d1); (g2, d2)], cd, []. cbn [snd fst]. rewrite T3, !app_nil_r.
       split; [reflexivity |]. split; [exact G2 |]. split; [exact Dc |].
       split; [intros N; now contradiction N |].
       split; [intros [a E]; discriminate E |].
       intros _. exists (g1, d1), (g2, d2).
       split; [reflexivity |]. split; [reflexivity |]. split; [reflexivity |].
       split; [exact Mc |].
       intros [[a E] | N]; [discriminate E | now contradiction N]. }
  apply combine_answers_succeed in S1. fold cd in S1.
  destruct (items_of (body fetchedDecks)) as [staleDecks| |] eqn:I2.
  2-3: exists [(g1, d1); (g2, d2)], cd, []; cbn [snd fst]; rewrite T3, !app_nil_r;
       (split; [reflexivity |]); (split; [exact G2 |]); (split; [exact Dc |]);
       (split; [intros N; now contradiction N |]);
       (split; [intros [a E]; discriminate E |]);
       intros _; exists (g1, d1), (g2, d2);
       (split; [reflexivity |]); (split; [reflexivity |]); (split; [reflexivity |]);
       (split; [exact Mc |]);
       intros [[a E] | N]; [discriminate E | now contradiction N].
  apply items_of_Next in I2. rewrite B2 in I2. fold (listing d2) in I2. subst staleDecks.
  rewrite deleteData_run. cbv zeta.
  set (dd := delete_requests (destinationDecksUrl config) _ _ (listing d2)).
  set (dl := combine dd (answers transport s3 dd)).
  assert (Md : map fst dl = dd) by apply combine_answers_fst.
  assert (Dd : Forall (fun e => req_method (fst e) = "DELETE") dl)
    by (eapply delete_requests_are_deletes; exact Md).
  exists [(g1, d1); (g2, d2)], cd, dl. cbn [snd fst].
  unfold after_calls at 1. cbn [trace]. fold dl. rewrite T3, <- !app_assoc.
  split; [reflexivity |]. split; [exact G2 |].
  split; [apply Forall_app; split; assumption |].
  split; [intros _; exact S1 |].
  split.
  - intros [a E]. split; [exact S1 |].
    destruct (forallb succeeds (answers transport s3 dd)) eqn:S2; cbn [await] in E;
      [now apply combine_answers_succeed | discriminate E].
  - intros _. exists (g1, d1), (g2, d2).
    split; [reflexivity |]. split; [reflexivity |]. split; [reflexivity |].
    split; [exact Mc |]. intros _. exact Md.
Qed.

Lemma after_clearing_logs config :
  logs get_or_post
    (co_bind (migrateCards transport config) (fun _ =>
     co_bind (migrateDecks transport config) (fun decks =>
     associateCards transport config decks))).
Proof.
  apply logs_bind; [apply migrateCards_logs | intros _].
  apply logs_bind; [apply migrateDecks_logs | intros decks].
  apply associateCards_logs.
Qed.

(** C7.  The calls of a run come in this order: token exchanges and GETs;
    then the DELETEs of the destination's cards; then the DELETEs of its
    decks; then GETs and POSTs only.  So every DELETE is issued before the
    first POST to the views service.  Anything is issued after the card
    DELETEs only if all of them ended well, and anything after the deck
    DELETEs only if all of those did.  Without [clearDestination] no DELETE
    is issued.  With it, the DELETEs are those of the items the destination
    listed: as soon as the run gets past the two listings, it has issued
    one DELETE for every card the first listing was answered with, and
    before it goes on one DELETE for every deck of the second. *)
Theorem deletes_precede_creates localConfig (s : St World) :
  let cardsUrl := destinationViewsUrl localConfig ++ "/api/cards" in
  let decksUrl := destinationViewsUrl localConfig ++ "/api/decks" in
  let zone := destinationViewsZoneId localConfig in
  exists before cardDeletes deckDeletes after,
    trace (snd (migrateGenerator transport localConfig s)) =
    (trace s ++ before ++ cardDeletes ++ deckDeletes ++ after)%list /\
    Forall (fun e => token_exchange (fst e) \/ req_method (fst e) = "GET") before /\
    Forall (fun e => req_method (fst e) = "DELETE") (cardDeletes ++ deckDeletes) /\
    Forall (fun e => req_method (fst e) = "GET" \/ req_method (fst e) = "POST") after /\
    ((deckDeletes ++ after)%list <> [] ->
     Forall (fun e => succeeds (snd e) = true) cardDeletes) /\
    (after <> [] -> Forall (fun e => succeeds (snd e) = true) deckDeletes) /\
    (clearDestination localConfig = false ->
     cardDeletes = [] /\ deckDeletes = [] /\
     Forall (fun e => req_method (fst e) <> "DELETE") (before ++ after)) /\
    (clearDestination localConfig = true ->
     (cardDeletes ++ deckDeletes ++ after)%list <> [] ->
     exists first second cardListing deckListing,
       before = [first; second; cardListing; deckListing] /\
       fst cardListing =
         views_request cardsUrl zone (token_obtained (snd second)) None JUndefined /\
       fst deckListing =
         views_request decksUrl zone (token_obtained (snd second)) None JUndefined /\
       map fst cardDeletes =
         delete_requests cardsUrl zone (token_obtained (snd second))
           (listing (snd cardListing)) /\
       ((deckDeletes ++ after)%list <> [] ->
        map fst deckDeletes =
          delete_requests decksUrl zone (token_obtained (snd second))
            (listing (snd deckListing)))).
Proof.
  cbv zeta. unfold migrateGenerator. unfold co_bind at 1.
  destruct (authenticate_logs transport (getConfig localConfig) s) as [n1 [E1 F1]].
  assert (B1 : Forall (fun e => token_exchange (fst e) \/ req_method (fst e) = "GET") n1).
  { eapply Forall_impl; [| exact F1]. intros e; auto. }
  assert (N1 : Forall (fun e => req_method (fst e) <> "DELETE") n1).
  { eapply Forall_impl; [| exact F1]. intros e [u [c ->]]. discriminate. }
  destruct (authenticate transport (getConfig localConfig) s) as [r1 s1] eqn:A.
  cbn [fst snd] in *.
  destruct r1 as [config| |].
  2-3: exists n1, [], [], []; cbn [snd]; rewrite E1, !app_nil_r;
       (split; [reflexivity |]); (split; [exact B1 |]); (split; [constructor |]);
       (split; [constructor |]);
       (split; [intros N; now contradiction N |]);
       (split; [intros N; now contradiction N |]);
       (split; [intros _; split; [reflexivity | split; [reflexivity | exact N1]] |]);
       intros _ N; now contradiction N.
  apply authenticate_inv in A
    as [d1 [d2 [p1 [p2 [b1 [b2 [T1 [P1 [P2 [A1 [A2 ->]]]]]]]]]]].
  cbn [local getConfig originalUaaUrl originalUaaCredentials destinationUaaUrl
       destinationUaaCredentials] in T1.
  set (first := token_request (originalUaaUrl localConfig) _) in T1.
  set (second := token_request (destinationUaaUrl localConfig) _) in T1.
  assert (En : n1 = [(first, d1); (second, d2)]).
  { rewrite T1 in E1. now apply app_inv_head in E1. }
  subst n1.
  pose proof (token_obtained_of d2 p2 b2 P2 A2) as TO.
  set (config := set_destinationToken _ _).
  unfold co_bind at 1.
  destruct (after_clearing_logs config) with (s := snd (clearDestinationData transport config s1))
    as [n3 [E3 F3]].
  destruct (clearDestination localConfig) eqn:Flag.
  - destruct (clearDestinationData_shape config s1 Flag)
      as [gets [cd [dd [E2 [G [D [Sc [Sd Tie]]]]]]]].
    cbv zeta in Tie. cbn [config local destinationCardsUrl destinationDecksUrl
      destinationToken set_destinationToken set_originalToken getConfig] in Tie.
    rewrite <- TO in Tie.
    assert (B2 : Forall (fun e => token_exchange (fst e) \/ req_method (fst e) = "GET")
                   ([(first, d1); (second, d2)] ++ gets)).
    { apply Forall_app. split; [exact B1 |].
      eapply Forall_impl; [| exact G]. intros e; auto. }
    destruct (clearDestinationData transport config s1) as [r2 s2].
    cbn [fst snd] in *.
    destruct r2 as [[]| |].
    + exists ([(first, d1); (second, d2)] ++ gets)%list, cd, dd, n3.
      rewrite E3, E2, T1, <- !app_assoc.
      destruct (Sd (ex_intro _ tt eq_refl)) as [Sc' Sd'].
      split; [reflexivity |]. split; [exact B2 |]. split; [exact D |].
      split; [exact F3 |]. split; [intros _; exact Sc' |].
      split; [intros _; exact Sd' |]. split; [discriminate |].
      intros _ _.
      destruct (Tie (or_introl (ex_intro _ tt eq_refl)))
        as [lc [ld [-> [R1 [R2 [Mc Md]]]]]].
      exists (first, d1), (second, d2), lc, ld.
      split; [reflexivity |]. split; [exact R1 |]. split; [exact R2 |].
      split; [exact Mc |]. intros _. apply Md. left. exists tt. reflexivity.
    + exists ([(first, d1); (second, d2)] ++ gets)%list, cd, dd, []. cbn [snd].
      rewrite E2, T1, <- !app_assoc, !app_nil_r.
      split; [reflexivity |]. split; [exact B2 |]. split; [exact D |].
      split; [constructor |]. split; [exact Sc |].
      split; [intros N; now contradiction N |]. split; [discriminate |].
      intros _ N.
      destruct (Tie (or_intror N)) as [lc [ld [-> [R1 [R2 [Mc Md]]]]]].
      exists (first, d1), (second, d2), lc, ld.
      split; [reflexivity |]. split; [exact R1 |]. split; [exact R2 |].
      split; [exact Mc |]. intros N'. apply Md. right. exact N'.
    + exists ([(first, d1); (second, d2)] ++ gets)%list, cd, dd, []. cbn [snd].
      rewrite E2, T1, <- !app_assoc, !app_nil_r.
      split; [reflexivity |]. split; [exact B2 |]. split; [exact D |].
      split; [constructor |]. split; [exact Sc |].
      split; [intros N; now contradiction N |]. split; [discriminate |].
      intros _ N.
      destruct (Tie (or_intror N)) as [lc [ld [-> [R1 [R2 [Mc Md]]]]]].
      exists (first, d1), (second, d2), lc, ld.
      split; [reflexivity |]. split; [exact R1 |]. split; [exact R2 |].
      split; [exact Mc |]. intros N'. apply Md. right. exact N'.
  - unfold clearDestinationData in *. cbn [config local set_destinationToken
      set_originalToken getConfig] in *. rewrite Flag in *. cbn [co_ret fst snd] in *.
    exists [(first, d1); (second, d2)], [], [], n3. rewrite E3, T1, <- !app_assoc.
    cbn [app].
    split; [reflexivity |]. split; [exact B1 |]. split; [constructor |].
    split; [exact F3 |]. split; [intros _; constructor |].
    split; [intros _; constructor |].
    split; [| discriminate].
    intros _. split; [reflexivity |]. split; [reflexivity |].
    change ((first, d1) :: (second, d2) :: n3) with ([(first, d1); (second, d2)] ++ n3)%list.
    apply Forall_app. split; [exact N1 |].
    eapply Forall_impl; [| exact F3]. intros e [-> | ->]; discriminate.
Qed.

(** C2, as amended.  Once the origin cards are fetched, created at the
    destination and the destination cards fetched again, the tag step issues
    one POST per origin card with a non-empty tag list, to
    [destinationCardsUrl/id/tags] where [id] is the id of that origin card,
    carrying its tag values.  What the second fetch returned plays no part. *)
Theorem migrateCards_tags_by_origin_id config (s s1 s2 s3 : St World)
    fetched cards created refetched :
  yield (requestViewsData transport (originalCardsUrl config)
           (originalViewsZoneId (local config)) (originalToken config)
           None JUndefined) s = (Next fetched, s1) ->
  body fetched = JItems cards ->
  yield (requestViewsData transport (destinationViewsUrl (local config) ++ "/api/cards")
           (destinationViewsZoneId (local config)) (destinationToken config)
           (Some "POST") (JItems cards)) s1 = (Next created, s2) ->
  yield (requestViewsData transport (destinationViewsUrl (local config) ++ "/api/cards")
           (destinationViewsZoneId (local config)) (destinationToken config)
           None JUndefined) s2 = (Next refetched, s3) ->
  let posts :=
    map (fun item =>
           {| req_url := destinationCardsUrl config ++ "/" ++ id item ++ "/tags";
              req_headers := [("Predix-Zone-Id", destinationViewsZoneId (local config));
                              ("Authorization", destinationToken config)];
              req_method := "POST";
              req_json := true;
              req_body := JTags (map (fun tag => {| value := value tag; tag_other := [] |})
                                     (tags_or_nil item)) |})
        (filter (fun item => match tags item with Some (_ :: _) => true | _ => false end)
                cards) in
  trace (snd (migrateCards transport config s)) =
  (trace s3 ++ combine posts (answers transport s3 posts))%list
  /\ fst (migrateCards transport config s) =
     if forallb succeeds (answers transport s3 posts) then Next cards else Stalled.
Proof.
  intros Y1 B Y2 Y3. cbv zeta.
  fold (tag_requests (destinationCardsUrl config)
          (destinationViewsZoneId (local config)) (destinationToken config) cards).
  set (posts := tag_requests (destinationCardsUrl config)
                  (destinationViewsZoneId (local config)) (destinationToken config) cards).
  assert (E : migrateCards transport config s =
              (if forallb succeeds (answers transport s3 posts)
               then Next cards else Stalled,
               after_calls transport s3 posts)).
  { unfold migrateCards, co_bind. rewrite Y1. unfold eval. rewrite B.
    cbn [items_of]. rewrite Y2, Y3. unfold yield. rewrite addTags_run. cbv zeta.
    fold posts. destruct (forallb succeeds _); reflexivity. }
  rewrite E. split; reflexivity.
Qed.

End Pipeline.


(** ** Concrete runs *)

(** C2, as stated, fails on the round-trip scenario: the destination lists
    the created cards as "101" and "102", and the one tag call goes to
    [.../api/cards/1/tags], the id of the origin card, which is the tag URL
    of neither destination card. *)
Lemma tags_posted_under_origin_id :
  let s' := snd (@migrateCards cards_host unit cards_transport example_config start) in
  map (fun e => (req_method (fst e), req_url (fst e))) (trace s') =
    [("GET", "https://origin/api/cards");
     ("POST", "https://destination/api/cards");
     ("GET", "https://destination/api/cards");
     ("POST", "https://destination/api/cards/1/tags")]
  /\ @decode_body cards_host (JString (print_json (JItems destination_cards))) =
     Some (JItems destination_cards)
  /\ map id destination_cards = ["101"; "102"]
  /\ ~ In "https://destination/api/cards/1/tags"
         (map (fun c => destinationCardsUrl example_config ++ "/" ++ id c ++ "/tags")
              destination_cards).
Proof.
  cbv zeta. split; [vm_compute; reflexivity |].
  split; [vm_compute; reflexivity |].
  split; [reflexivity |].
  vm_compute. intros [E | [E | []]]; discriminate E.
Qed.

(** The full-pipeline scenario, call by call: three card DELETEs and one
    deck DELETE come before the first POST to the views service; the origin
    association is refused and the run completes all the same. *)
Example pipeline_run :
  let r := @migrateGenerator pipeline_host nat (scripted_transport pipeline_script)
             (example_localConfig true) pipeline_start in
  fst r = Next tt /\
  map (fun e => (req_method (fst e), req_url (fst e))) (trace (snd r)) =
    [("POST", "https://origin-uaa/oauth/token");
     ("POST", "https://destination-uaa/oauth/token");
     ("GET", "https://destination/api/cards");
     ("GET", "https://destination/api/decks");
     ("DELETE", "https://destination/api/cards/7");
     ("DELETE", "https://destination/api/cards/8");
     ("DELETE", "https://destination/api/cards/9");
     ("DELETE", "https://destination/api/decks/old");
     ("GET", "https://origin/api/cards");
     ("POST", "https://destination/api/cards");
     ("GET", "https://destination/api/cards");
     ("POST", "https://destination/api/cards/1/tags");
     ("GET", "https://origin/api/decks?filter[include][cards]");
     ("POST", "https://destination/api/decks");
     ("POST", "https://origin/api/decks/d1/cards/add");
     ("POST", "https://destination/api/decks/d1/cards/add")].
Proof. vm_compute. split; reflexivity. Qed.

(** A 401 from the token endpoint. *)
Lemma requestToken_settles_witness :
  fst (@requestToken (example_host []) unit (constant_transport (ok 401 ""))
         "https://origin-uaa" "b3JpZ2lu" start) =
  Rejected (Message "Error retrieving token. Response returned status code 401").
Proof.
  apply (proj1 (proj2 (@requestToken_settles (example_host []) unit
                         (constant_transport (ok 401 ""))
                         "https://origin-uaa" "b3JpZ2lu" start _ eq_refl))).
  split; [| reflexivity].
  cbn. intros [_ [r [E1 E2]]]. inversion E1; subst. discriminate E2.
Defined.

(** C4, as stated, fails on a 200 whose body is not JSON: no error was
    reported and the status is 200, yet the promise is neither fulfilled
    nor rejected. *)
Lemma requestToken_unsettled_on_200 :
  let args := {| error := None;
                 response := Some {| Response.statusCode := 200;
                                     Response.headers := None |};
                 responseBody := JString "<html>" |} in
  let p := fst (@requestToken pipeline_host unit (constant_transport (Calls args))
                  "https://origin-uaa" "b3JpZ2lu" start) in
  (error args = None /\
   exists r, response args = Some r /\ Response.statusCode r = 200%N)
  /\ p = Uncaught SyntaxError
  /\ (forall v, p <> Fulfilled v)
  /\ (forall e, p <> Rejected e).
Proof.
  cbv zeta. split; [split; [reflexivity | eexists; split; reflexivity] |].
  split; [reflexivity |]. split; intros x; discriminate.
Qed.

(** C5, as stated, fails when the callback is handed neither an error nor a
    response: there is no status code, yet the promise is fulfilled. *)
Lemma requestViewsData_resolves_without_status :
  let args := {| error := None; response := None; responseBody := JUndefined |} in
  fst (@requestViewsData (example_host []) unit (constant_transport (Calls args))
         "https://destination/api/cards" "destination-zone" "Bearer d"
         None JUndefined start) =
  Fulfilled {| body := JUndefined; headers := [] |}
  /\ ~ (error args = None /\
        exists r, response args = Some r /\
                  starts_with "2" (decimal (Response.statusCode r))).
Proof.
  cbv zeta. split; [reflexivity |]. intros [_ [r [E _]]]. discriminate E.
Qed.

(** A 404 on a DELETE. *)
Lemma requestViewsData_settles_witness :
  fst (@requestViewsData (example_host []) unit (constant_transport (ok 404 ""))
         "https://destination/api/cards/1" "destination-zone" "Bearer d"
         (Some "DELETE") JUndefined start) =
  Rejected (Message (@failure_message (example_host [])
                       "https://destination/api/cards/1" "destination-zone"
                       (Some "DELETE") JUndefined
                       {| error := None;
                          response := Some {| Response.statusCode := 404;
                                              Response.headers := None |};
                          responseBody := JString "" |})).
Proof.
  apply (proj1 (@requestViewsData_settles (example_host []) unit
                  (constant_transport (ok 404 ""))
                  "https://destination/api/cards/1" "destination-zone" "Bearer d"
                  (Some "DELETE") JUndefined start _ eq_refl)).
  split; [| reflexivity].
  right. eexists. split; [reflexivity |].
  cbn. intros [rest E]. discriminate E.
Defined.

(** No error, no response, no body. *)
Lemma requestViewsData_without_response_witness :
  fst (@requestViewsData (example_host []) unit
         (constant_transport
            (Calls {| error := None; response := None; responseBody := JUndefined |}))
         "https://destination/api/cards" "destination-zone" "Bearer d"
         None JUndefined start) =
  Fulfilled {| body := JUndefined; headers := [] |}.
Proof.
  apply (proj1 (proj2 (@requestViewsData_without_response (example_host []) unit
           (constant_transport
              (Calls {| error := None; response := None; responseBody := JUndefined |}))
           "https://destination/api/cards" "destination-zone" "Bearer d"
           None JUndefined start _ eq_refl eq_refl eq_refl))).
  reflexivity.
Defined.

(** C10, as stated, fails on a body that is a text: with neither an error
    nor a response, a JSON text is parsed and the promise is fulfilled with
    the parsed value, not with the text; on a text that is not JSON the
    promise is not fulfilled at all. *)
Lemma requestViewsData_text_not_passed_through :
  let answer text :=
    Calls {| error := None; response := None; responseBody := JString text |} in
  let p text :=
    fst (@requestViewsData small_host unit (constant_transport (answer text))
           "https://destination/api/cards" "destination-zone" "Bearer d"
           None JUndefined start) in
  p "[]" = Fulfilled {| body := JItems []; headers := [] |}
  /\ p "[]" <> Fulfilled {| body := JString "[]"; headers := [] |}
  /\ p "OK" = Uncaught SyntaxError.
Proof.
  cbv zeta. split; [reflexivity |]. split; [discriminate | reflexivity].
Qed.

(** Two cards to delete; the destination does not know the first. *)
Lemma bulk_failure_is_not_reported_witness :
  let run :=
    @deleteData (example_host []) unit
      (example_transport [("DELETE", "https://destination/api/cards/b", ok 204 "")])
      [card "a" []; card "b" []]
      "https://destination/api/cards" "destination-zone" "Bearer d" "card" start in
  fst run = Pending /\
  map fst (trace (snd run)) =
    delete_requests "https://destination/api/cards" "destination-zone" "Bearer d"
      [card "a" []; card "b" []] /\
  length (delete_requests "https://destination/api/cards" "destination-zone" "Bearer d"
            [card "a" []; card "b" []]) = 2.
Proof.
  apply (proj1 (@bulk_failure_is_not_reported (example_host []) unit
                  (example_transport
                     [("DELETE", "https://destination/api/cards/b", ok 204 "")])
                  [card "a" []; card "b" []]
                  "https://destination/api/cards" "destination-zone" "Bearer d" "card"
                  [] example_config [] start)).
  exists (ok 404 ""). split; [left; reflexivity | reflexivity].
Defined.

(** C8, as stated, fails as soon as a launched call settles by being
    rejected: with one card that the destination answers 404 for, the one
    launched call has settled and the promise of [deleteData] is still
    pending. *)
Lemma deleteData_pending_though_all_settled :
  forallb settled
    (fst (@deleteData_each (example_host []) unit (constant_transport (ok 404 ""))
            [card "a" []] "https://destination/api/cards" "destination-zone"
            "Bearer d" start)) = true
  /\ fst (@deleteData (example_host []) unit (constant_transport (ok 404 ""))
            [card "a" []] "https://destination/api/cards" "destination-zone"
            "Bearer d" "card" start) = Pending.
Proof. split; reflexivity. Qed.

(** The empty list. *)
Lemma bulk_resolves_once_all_succeed_witness :
  @deleteData (example_host []) unit (constant_transport (ok 404 ""))
    [] "https://destination/api/cards" "destination-zone" "Bearer d" "card" start =
  (Fulfilled tt, start).
Proof.
  apply (@bulk_resolves_once_all_succeed (example_host []) unit
           (constant_transport (ok 404 ""))
           [] "https://destination/api/cards" "destination-zone" "Bearer d" "card"
           [] start).
Defined.

(** The cards of the round-trip scenario: one call, for card "1". *)
Lemma addTags_posts_once_per_tagged_item_witness :
  map (fun e => (req_url (fst e), req_body (fst e)))
      (trace (snd (@addTags (example_host []) unit (constant_transport (ok 200 ""))
                     "https://destination/api/cards" origin_cards
                     "destination-zone" "Bearer d" start))) =
  [("https://destination/api/cards/1/tags", JTags [tag "x"])].
Proof.
  rewrite (proj1 (@addTags_posts_once_per_tagged_item (example_host []) unit
                    (constant_transport (ok 200 ""))
                    "https://destination/api/cards" origin_cards
                    "destination-zone" "Bearer d" start)).
  reflexivity.
Defined.

(** C3, as stated, fails on the deck of the association scenario: its
    membership under [attributes.cards] is not empty, and the destination
    loop issues no call for it. *)
Lemma deck_in_attributes_gets_no_post :
  nonempty (membership_in_attributes deck_d1) = true
  /\ @associateDestination (example_host []) unit (constant_transport (ok 200 ""))
       example_config [deck_d1] start = (Fulfilled tt, start)
  /\ map (fun r => (req_url r, req_body r))
       (association_requests membership_in_attributes (originalDecksUrl example_config)
          (originalViewsZoneId (local example_config)) (originalToken example_config)
          [deck_d1]) =
     [("https://origin/api/decks/d1/cards/add", JIds ["1"; "2"])].
Proof.
  split; [reflexivity |]. split; [| reflexivity].
  apply (@associateDestination_reads_deck_cards (example_host []) unit
           (constant_transport (ok 200 "")) example_config deck_d1 start
           eq_refl eq_refl).
Qed.

(** A deck that lists its cards under [deck.cards]. *)
Lemma associateDestination_posts_once_per_deck_with_cards_witness :
  map (fun e => (req_url (fst e), req_body (fst e)))
      (trace (snd (@associateDestination (example_host []) unit
                     (constant_transport (ok 200 ""))
                     example_config origin_decks start))) =
  [("https://destination/api/decks/d1/cards/add", JIds ["1"; "2"])].
Proof.
  rewrite (proj1 (@associateDestination_posts_once_per_deck_with_cards
                    (example_host []) unit (constant_transport (ok 200 ""))
                    example_config origin_decks start)).
  reflexivity.
Defined.



(** The round-trip scenario. *)
Lemma migrateCards_tags_by_origin_id_witness :
  map (fun e => req_url (fst e))
      (skipn 3 (trace (snd (@migrateCards cards_host unit cards_transport
                              example_config start)))) =
  ["https://destination/api/cards/1/tags"].
Proof.
  rewrite (proj1 (@migrateCards_tags_by_origin_id cards_host unit cards_transport
                    example_config start _ _ _ _ origin_cards _ _
                    eq_refl eq_refl eq_refl eq_refl)).
  reflexivity.
Defined.

(** Evaluate the right-hand side of an equation. *)
Ltac evaluate_rhs H :=
  match type of H with
  | _ = ?r => let v := eval vm_compute in r in change r with v in H
  end.

(** The full-pipeline scenario: the destination lists three cards and one
    deck, and the run issues three card DELETEs and then one deck DELETE
    between the listings and everything else. *)
Lemma deletes_precede_creates_witness :
  exists before cardDeletes deckDeletes after,
    trace (snd (@migrateGenerator pipeline_host nat (scripted_transport pipeline_script)
                  (example_localConfig true) pipeline_start)) =
    (before ++ cardDeletes ++ deckDeletes ++ after)%list /\
    Forall (fun e => token_exchange (fst e) \/ req_method (fst e) = "GET") before /\
    map (fun e => (req_method (fst e), req_url (fst e))) cardDeletes =
      [("DELETE", "https://destination/api/cards/7");
       ("DELETE", "https://destination/api/cards/8");
       ("DELETE", "https://destination/api/cards/9")] /\
    map (fun e => (req_method (fst e), req_url (fst e))) deckDeletes =
      [("DELETE", "https://destination/api/decks/old")] /\
    Forall (fun e => req_method (fst e) = "GET" \/ req_method (fst e) = "POST") after.
Proof.
  destruct (@deletes_precede_creates pipeline_host nat (scripted_transport pipeline_script)
              (example_localConfig true) pipeline_start)
    as [before [cd [dd [after [E [B [_ [A [_ [_ [_ Tie]]]]]]]]]]].
  cbv zeta in Tie. cbn [trace pipeline_start app] in E.
  remember (trace (snd (@migrateGenerator pipeline_host nat
                          (scripted_transport pipeline_script)
                          (example_localConfig true) pipeline_start))) as tr eqn:Tr.
  vm_compute in Tr.
  assert (NE : (cd ++ dd ++ after)%list <> []).
  { intros Z. rewrite Z, app_nil_r in E. rewrite <- E, Tr in B.
    do 4 apply Forall_inv_tail in B. apply Forall_inv in B.
    destruct B as [[u [c X]] | X]; discriminate X. }
  destruct (Tie eq_refl NE) as [first [second [lc [ld [Eb [_ [_ [Mc Md]]]]]]]].
  pose proof E as E'. rewrite Eb, Tr in E'. cbn [app] in E'.
  injection E' as E1 E2 E3 E4 E5. subst first second lc ld.
  evaluate_rhs Mc.
  assert (NE' : (dd ++ after)%list <> []).
  { intros Z. rewrite Z, app_nil_r in E5.
    apply (f_equal (@length _)) in Mc. rewrite length_map, <- E5 in Mc.
    discriminate Mc. }
  specialize (Md NE'). evaluate_rhs Md.
  exists before, cd, dd, after.
  split; [exact E |]. split; [exact B |].
  split; [rewrite <- (map_map fst (fun r => (req_method r, req_url r))), Mc; reflexivity |].
  split; [rewrite <- (map_map fst (fun r => (req_method r, req_url r))), Md; reflexivity |].
  exact A.
Defined.

(** * Further properties of the script *)

(** ** Status codes *)

Lemma decimal_starts_with_2 (n : N) :
  within 100 599 n = true ->
  indexOf_ne_0 "2" (decimal n) = negb (within 200 299 n).
Proof.
  intros R.
  assert (A : forallb (fun k => Bool.eqb (indexOf_ne_0 "2" (decimal (N.of_nat k)))
                                         (negb (within 200 299 (N.of_nat k))))
                      (seq 100 500) = true) by (vm_compute; reflexivity).
  rewrite forallb_forall in A.
  specialize (A (N.to_nat n)). rewrite N2Nat.id in A.
  apply eqb_prop, A, in_seq.
  unfold within in R. apply andb_true_iff in R as [L U].
  apply N.leb_le in L. apply N.leb_le in U. lia.
Qed.

Section StatusFacts.
Context `{Host} {World : Type}.
Variable transport : World -> Request -> Delivery * World.

(** For the status codes HTTP knows, 100 to 599, a views call is rejected
    exactly when the status lies outside 200..299. *)
Theorem requestViewsData_rejects_outside_2xx url zoneId token method sent
    (s : St World) (args : CallbackArgs) (r : Response.t) :
  fst (transport (world s) (views_request url zoneId token method sent)) = Calls args ->
  error args = None ->
  response args = Some r ->
  within 100 599 (Response.statusCode r) = true ->
  rejected (fst (requestViewsData transport url zoneId token method sent s)) =
  negb (within 200 299 (Response.statusCode r)).
Proof.
  intros Hd He Hr R. rewrite requestViewsData_run. cbn [fst]. rewrite Hd.
  cbn [promise_of]. unfold requestViewsData_callback, request_failed.
  rewrite He, Hr, (decimal_starts_with_2 _ R).
  destruct (within 200 299 (Response.statusCode r)); cbn [negb settle rejected];
    [| reflexivity].
  destruct (decode_body (responseBody args)); reflexivity.
Qed.

End StatusFacts.

(** ** Authentication *)

Section AuthenticationFacts.
Context `{Host} {World : Type}.
Variable transport : World -> Request -> Delivery * World.

(** When the origin's token exchange is refused, the run fails with the
    message of that refusal and has issued that one call only: the
    destination's token endpoint and both views services are never
    contacted. *)
Theorem origin_token_refused_aborts localConfig (s : St World) (args : CallbackArgs) :
  let exchange := token_request (originalUaaUrl localConfig)
                    (originalUaaCredentials localConfig) in
  fst (transport (world s) exchange) = Calls args ->
  token_granted args = false ->
  migrateGenerator transport localConfig s =
  (Failed (Message ("Error retrieving token. Response returned status code "
                    ++ status_or_unknown (response args))),
   after_calls transport s [exchange]).
Proof.
  cbv zeta. intros Hd G.
  unfold migrateGenerator. unfold co_bind at 1.
  unfold authenticate. unfold co_bind at 1.
  rewrite yield_requestToken. cbv zeta. cbn [local getConfig originalUaaUrl
    originalUaaCredentials]. rewrite Hd. cbn [promise_of].
  unfold requestToken_callback. rewrite G. reflexivity.
Qed.

(** When the origin's exchange is granted and the destination's is refused,
    the run fails with the message of the second refusal after exactly the
    two exchanges; no views call is made with the origin token alone. *)
Theorem destination_token_refused_aborts localConfig (s : St World)
    (parsed : JSValue) (bearer : string) (args : CallbackArgs) :
  let first := token_request (originalUaaUrl localConfig)
                 (originalUaaCredentials localConfig) in
  let second := token_request (destinationUaaUrl localConfig)
                  (destinationUaaCredentials localConfig) in
  let s1 := after_calls transport s [first] in
  promise_of requestToken_callback (fst (transport (world s) first)) = Fulfilled parsed ->
  access_token parsed = Next bearer ->
  fst (transport (world s1) second) = Calls args ->
  token_granted args = false ->
  migrateGenerator transport localConfig s =
  (Failed (Message ("Error retrieving token. Response returned status code "
                    ++ status_or_unknown (response args))),
   after_calls transport s1 [second]).
Proof.
  cbv zeta. intros P1 T1 Hd G.
  unfold migrateGenerator. unfold co_bind at 1.
  unfold authenticate. unfold co_bind at 1.
  rewrite yield_requestToken. cbv zeta. cbn [local getConfig originalUaaUrl
    originalUaaCredentials]. rewrite P1. cbn [await].
  unfold co_bind at 1. unfold eval at 1. rewrite T1.
  unfold co_bind at 1.
  rewrite yield_requestToken. cbv zeta. cbn [local set_originalToken getConfig
    destinationUaaUrl destinationUaaCredentials]. rewrite Hd. cbn [promise_of].
  unfold requestToken_callback. rewrite G. reflexivity.
Qed.

(** What a completed authentication leaves behind: exactly two calls, the
    origin's exchange and then the destination's, both granted; each token
    is "Bearer " followed by what [access_token] reads in the parsed
    response; the zone ids and the four resource URLs are untouched. *)
Theorem authenticate_sets_bearer_tokens config (s s' : St World) config' :
  authenticate transport config s = (Next config', s') ->
  let first := token_request (originalUaaUrl (local config))
                 (originalUaaCredentials (local config)) in
  let second := token_request (destinationUaaUrl (local config))
                  (destinationUaaCredentials (local config)) in
  exists d1 d2 parsed1 parsed2 bearer1 bearer2,
    trace s' = (trace s ++ [(first, d1); (second, d2)])%list /\
    granted d1 = true /\ granted d2 = true /\
    promise_of requestToken_callback d1 = Fulfilled parsed1 /\
    promise_of requestToken_callback d2 = Fulfilled parsed2 /\
    access_token parsed1 = Next bearer1 /\
    access_token parsed2 = Next bearer2 /\
    originalToken config' = "Bearer " ++ bearer1 /\
    destinationToken config' = "Bearer " ++ bearer2 /\
    local config' = local config /\
    originalCardsUrl config' = originalCardsUrl config /\
    originalDecksUrl config' = originalDecksUrl config /\
    destinationCardsUrl config' = destinationCardsUrl config /\
    destinationDecksUrl config' = destinationDecksUrl config.
Proof.
  intros A. cbv zeta.
  destruct (authenticate_inv transport _ _ _ _ A)
    as [d1 [d2 [p1 [p2 [t1 [t2 [Tr [P1 [P2 [T1 [T2 ->]]]]]]]]]]].
  exists d1, d2, p1, p2, t1, t2.
  repeat split; auto.
  - rewrite <- token_promise_fulfilled, P1. reflexivity.
  - rewrite <- token_promise_fulfilled, P2. reflexivity.
Qed.


End AuthenticationFacts.

(** ** The stages, when they complete *)

Section StageFacts.
Context `{Host} {World : Type}.
Variable transport : World -> Request -> Delivery * World.

Lemma views_request_is_views_call url zoneId token method sent :
  views_call (views_request url zoneId token method sent).
Proof. exists zoneId, token. reflexivity. Qed.

Lemma delete_requests_are_views_calls url zoneId token items :
  Forall views_call (delete_requests url zoneId token items).
Proof.
  unfold delete_requests. apply Forall_map, Forall_forall. intros x _.
  exists zoneId, token. reflexivity.
Qed.

Lemma tag_requests_are_views_calls url zoneId token items :
  Forall views_call (tag_requests url zoneId token items).
Proof.
  unfold tag_requests. apply Forall_map, Forall_forall. intros x _.
  exists zoneId, token. reflexivity.
Qed.

Lemma association_requests_are_views_calls membership url zoneId token decks :
  Forall views_call (association_requests membership url zoneId token decks).
Proof.
  unfold association_requests. apply Forall_map, Forall_forall. intros x _.
  exists zoneId, token. reflexivity.
Qed.

Lemma yield_requestViewsData_inv url zoneId token method sent (s s' : St World) v :
  yield (requestViewsData transport url zoneId token method sent) s = (Next v, s') ->
  exists d,
    trace s' = (trace s ++ [(views_request url zoneId token method sent, d)])%list /\
    ended_well (views_request url zoneId token method sent, d) /\
    body v = answer_body d.
Proof.
  rewrite yield_requestViewsData. cbv zeta. intros E.
  exists (fst (transport (world s) (views_request url zoneId token method sent))).
  inversion E as [[A S]]. rewrite (after_calls_one transport). cbn [trace].
  apply await_views_body in A as [B Su].
  split; [reflexivity |]. split; [| exact B].
  right. split; [apply views_request_is_views_call | exact Su].
Qed.

Lemma combine_ended_well (s : St World) reqs :
  Forall views_call reqs ->
  forallb succeeds (answers transport s reqs) = true ->
  Forall ended_well (combine reqs (answers transport s reqs)).
Proof.
  intros V A. apply combine_answers_succeed in A.
  pose proof (Forall_combine_fst views_call reqs (answers transport s reqs) V) as F.
  rewrite Forall_forall in *. intros e I. right. auto.
Qed.

Lemma yield_join_inv (reqs : list Request) (s s' : St World) (u : unit)
    (m : IO World (Promise unit)) :
  m s = (if forallb succeeds (answers transport s reqs) then Fulfilled tt else Pending,
         after_calls transport s reqs) ->
  Forall views_call reqs ->
  yield m s = (Next u, s') ->
  exists entries,
    trace s' = (trace s ++ entries)%list /\
    map fst entries = reqs /\
    Forall ended_well entries.
Proof.
  intros R V. unfold yield. rewrite R.
  destruct (forallb succeeds (answers transport s reqs)) eqn:A; cbn [await];
    intros E; inversion E.
  exists (combine reqs (answers transport s reqs)).
  split; [reflexivity |].
  split; [apply combine_answers_fst | now apply combine_ended_well].
Qed.

Ltac all_ended_well :=
  repeat first
    [ assumption
    | apply Forall_nil
    | apply Forall_cons
    | apply Forall_app; split ].

Lemma clearDestinationData_inv config (s s' : St World) (u : unit) :
  clearDestinationData transport config s = (Next u, s') ->
  let zone := destinationViewsZoneId (local config) in
  let token := destinationToken config in
  exists clearing,
    trace s' = (trace s ++ clearing)%list /\
    Forall ended_well clearing /\
    if clearDestination (local config) then
      exists cardListing deckListing cardDeletes deckDeletes,
        clearing = ([cardListing; deckListing] ++ cardDeletes ++ deckDeletes)%list /\
        fst cardListing =
          views_request (destinationCardsUrl config) zone token None JUndefined /\
        fst deckListing =
          views_request (destinationDecksUrl config) zone token None JUndefined /\
        map fst cardDeletes =
          delete_requests (destinationCardsUrl config) zone token
            (listing (snd cardListing)) /\
        map fst deckDeletes =
          delete_requests (destinationDecksUrl config) zone token
            (listing (snd deckListing))
    else clearing = [].
Proof.
  cbv zeta. unfold clearDestinationData.
  destruct (clearDestination (local config)).
  2: { intros E. inversion E. exists []. rewrite app_nil_r. auto. }
  unfold co_bind.
  destruct (yield (requestViewsData transport (destinationCardsUrl config) _ _ None JUndefined) s)
    as [[fetchedCards| |] s1] eqn:Y1; try discriminate.
  destruct (yield (requestViewsData transport (destinationDecksUrl config) _ _ None JUndefined) s1)
    as [[fetchedDecks| |] s2] eqn:Y2; try discriminate.
  unfold eval at 1.
  destruct (items_of (body fetchedCards)) as [staleCards| |] eqn:I1; try discriminate.
  destruct (yield (deleteData transport staleCards _ _ _ "card") s2)
    as [[[]| |] s3] eqn:Y3; try discriminate.
  unfold eval at 1.
  destruct (items_of (body fetchedDecks)) as [staleDecks| |] eqn:I2; try discriminate.
  intros Y4.
  apply yield_requestViewsData_inv in Y1 as [d1 [T1 [W1 B1]]].
  apply yield_requestViewsData_inv in Y2 as [d2 [T2 [W2 B2]]].
  apply items_of_Next in I1. rewrite B1 in I1. fold (listing d1) in I1. subst staleCards.
  apply items_of_Next in I2. rewrite B2 in I2. fold (listing d2) in I2. subst staleDecks.
  eapply yield_join_inv in Y3 as [e3 [T3 [M3 W3]]];
    [| apply deleteData_run | apply delete_requests_are_views_calls].
  eapply yield_join_inv in Y4 as [e4 [T4 [M4 W4]]];
    [| apply deleteData_run | apply delete_requests_are_views_calls].
  eexists ([_; _] ++ e3 ++ e4)%list.
  split; [rewrite T4, T3, T2, T1, <- !app_assoc; reflexivity |].
  split; [all_ended_well |].
  eexists _, _, e3, e4. split; [reflexivity |].
  cbn [fst snd]. auto.
Qed.

Lemma migrateCards_inv config (s s' : St World) cards :
  migrateCards transport config s = (Next cards, s') ->
  let zone := destinationViewsZoneId (local config) in
  let token := destinationToken config in
  exists fetch creation again tagging,
    trace s' = (trace s ++ [fetch; creation; again] ++ tagging)%list /\
    Forall ended_well ([fetch; creation; again] ++ tagging) /\
    fst fetch =
      views_request (originalCardsUrl config) (originalViewsZoneId (local config))
        (originalToken config) None JUndefined /\
    fst creation =
      views_request (destinationViewsUrl (local config) ++ "/api/cards") zone token
        (Some "POST") (answer_body (snd fetch)) /\
    fst again =
      views_request (destinationViewsUrl (local config) ++ "/api/cards") zone token
        None JUndefined /\
    map fst tagging =
      tag_requests (destinationCardsUrl config) zone token (listing (snd fetch)) /\
    cards = listing (snd fetch).
Proof.
  cbv zeta. unfold migrateCards, co_bind.
  destruct (yield (requestViewsData transport (originalCardsUrl config) _ _ None JUndefined) s)
    as [[fetched| |] s1] eqn:Y1; try discriminate.
  unfold eval at 1.
  destruct (items_of (body fetched)) as [cards0| |] eqn:I; try discriminate.
  destruct (yield (requestViewsData transport _ _ _ (Some "POST") (body fetched)) s1)
    as [[created| |] s2] eqn:Y2; try discriminate.
  destruct (yield (requestViewsData transport _ _ _ None JUndefined) s2)
    as [[refetched| |] s3] eqn:Y3; try discriminate.
  destruct (yield (addTags transport _ cards0 _ _) s3)
    as [[[]| |] s4] eqn:Y4; try discriminate.
  unfold co_ret. intros E. inversion E; subst cards0 s4. clear E.
  apply yield_requestViewsData_inv in Y1 as [d1 [T1 [W1 B1]]].
  apply yield_requestViewsData_inv in Y2 as [d2 [T2 [W2 _]]].
  apply yield_requestViewsData_inv in Y3 as [d3 [T3 [W3 _]]].
  apply items_of_Next in I. rewrite B1 in I, T2, W2. fold (listing d1) in I. subst cards.
  eapply yield_join_inv in Y4 as [e4 [T4 [M4 W4]]];
    [| apply addTags_run | apply tag_requests_are_views_calls].
  eexists _, _, _, e4.
  split; [rewrite T4, T3, T2, T1, <- !app_assoc; reflexivity |].
  split; [all_ended_well |].
  cbn [fst snd]. auto 10.
Qed.

Lemma migrateDecks_inv config (s s' : St World) decks :
  migrateDecks transport config s = (Next decks, s') ->
  let zone := destinationViewsZoneId (local config) in
  let token := destinationToken config in
  exists fetch creation tagging,
    trace s' = (trace s ++ [fetch; creation] ++ tagging)%list /\
    Forall ended_well ([fetch; creation] ++ tagging) /\
    fst fetch =
      views_request (originalDecksUrl config ++ "?filter[include][cards]")
        (originalViewsZoneId (local config)) (originalToken config) None JUndefined /\
    fst creation =
      views_request (destinationDecksUrl config) zone token
        (Some "POST") (answer_body (snd fetch)) /\
    map fst tagging =
      tag_requests (destinationDecksUrl config) zone token (listing (snd fetch)) /\
    decks = listing (snd fetch).
Proof.
  cbv zeta. unfold migrateDecks, co_bind.
  destruct (yield (requestViewsData transport _ _ _ None JUndefined) s)
    as [[fetched| |] s1] eqn:Y1; try discriminate.
  unfold eval at 1.
  destruct (items_of (body fetched)) as [decks0| |] eqn:I; try discriminate.
  destruct (yield (requestViewsData transport _ _ _ (Some "POST") (body fetched)) s1)
    as [[created| |] s2] eqn:Y2; try discriminate.
  destruct (yield (addTags transport _ decks0 _ _) s2)
    as [[[]| |] s3] eqn:Y3; try discriminate.
  unfold co_ret. intros E. inversion E; subst decks0 s3. clear E.
  apply yield_requestViewsData_inv in Y1 as [d1 [T1 [W1 B1]]].
  apply yield_requestViewsData_inv in Y2 as [d2 [T2 [W2 _]]].
  apply items_of_Next in I. rewrite B1 in I, T2, W2. fold (listing d1) in I. subst decks.
  eapply yield_join_inv in Y3 as [e3 [T3 [M3 W3]]];
    [| apply addTags_run | apply tag_requests_are_views_calls].
  eexists _, _, e3.
  split; [rewrite T3, T2, T1, <- !app_assoc; reflexivity |].
  split; [all_ended_well |].
  cbn [fst snd]. auto 10.
Qed.

Lemma associateCards_inv config decks (s s' : St World) (u : unit) :
  associateCards transport config decks s = (Next u, s') ->
  exists atOrigin atDestination,
    trace s' = (trace s ++ atOrigin ++ atDestination)%list /\
    map fst atOrigin =
      association_requests membership_in_attributes (originalDecksUrl config)
        (originalViewsZoneId (local config)) (originalToken config) decks /\
    map fst atDestination =
      association_requests cards (destinationDecksUrl config)
        (destinationViewsZoneId (local config)) (destinationToken config) decks /\
    Forall ended_well atDestination /\
    (atDestination <> [] -> Forall (fun e => throws (snd e) = false) atOrigin).
Proof.
  rewrite associateCards_run. cbv zeta.
  set (origin := association_requests membership_in_attributes _ _ _ decks).
  set (destination := association_requests cards _ _ _ decks).
  destruct (_ && _) eqn:X; [discriminate |].
  destruct (forallb succeeds _) eqn:A; [| discriminate].
  intros E. inversion E.
  exists (combine origin (answers transport s origin)),
         (combine destination (answers transport (after_calls transport s origin) destination)).
  unfold after_calls at 1. cbn [trace]. unfold after_calls at 1. cbn [trace].
  split; [now rewrite <- app_assoc |].
  split; [apply combine_answers_fst |]. split; [apply combine_answers_fst |].
  split.
  - apply combine_ended_well; [apply association_requests_are_views_calls | exact A].
  - intros N. apply Forall_forall. intros [r d] I. cbn [snd]. apply in_combine_r in I.
    destruct (throws d) eqn:T; [| reflexivity].
    assert (Y : existsb throws (answers transport s origin) = true)
      by (apply existsb_exists; eauto).
    rewrite Y, andb_true_r in X.
    destruct destination; [now destruct N | discriminate X].
Qed.

End StageFacts.

(** ** A run that completes *)

Section CompletedRun.
Context `{Host} {World : Type}.
Variable transport : World -> Request -> Delivery * World.

Lemma granted_of_fulfilled (d : Delivery) (parsed : JSValue) :
  promise_of requestToken_callback d = Fulfilled parsed -> granted d = true.
Proof. intros P. rewrite <- token_promise_fulfilled, P. reflexivity. Qed.

(** The protocol of a successful migration.  A run that completes has
    issued exactly these calls, in this order, each fixed by the
    configuration and by the answers to the calls before it:
    - the two token exchanges; every later call to the origin carries the
      token made of the first answer, every call to the destination the
      token made of the second;
    - when clearing, the listings of the destination's cards and decks, one
      DELETE per listed card, then one per listed deck;
    - the listing of the origin's cards, one POST to the destination
      carrying the body of that listing as it came, the listing of the
      destination's cards, one tag POST per listed origin card with a
      non-empty tag list;
    - the listing of the origin's decks with their cards, one POST carrying
      its body, one tag POST per tagged deck;
    - one association POST at the origin per deck with a non-empty
      [attributes.cards], then one at the destination per deck with a
      non-empty [cards]. *)
Theorem completed_run_protocol localConfig (s s' : St World) :
  migrateGenerator transport localConfig s = (Next tt, s') ->
  let oz := originalViewsZoneId localConfig in
  let dz := destinationViewsZoneId localConfig in
  let oc := originalViewsUrl localConfig ++ "/api/cards" in
  let od := originalViewsUrl localConfig ++ "/api/decks" in
  let dc := destinationViewsUrl localConfig ++ "/api/cards" in
  let dd := destinationViewsUrl localConfig ++ "/api/decks" in
  exists first second clearing cardFetch cardCreation cardsAgain cardTags
         deckFetch deckCreation deckTags atOrigin atDestination,
    let ot := token_obtained (snd first) in
    let dt := token_obtained (snd second) in
    trace s' =
      (trace s ++ [first; second] ++ clearing
       ++ [cardFetch; cardCreation; cardsAgain] ++ cardTags
       ++ [deckFetch; deckCreation] ++ deckTags
       ++ atOrigin ++ atDestination)%list /\
    fst first =
      token_request (originalUaaUrl localConfig) (originalUaaCredentials localConfig) /\
    fst second =
      token_request (destinationUaaUrl localConfig)
        (destinationUaaCredentials localConfig) /\
    (if clearDestination localConfig then
       exists cardListing deckListing cardDeletes deckDeletes,
         clearing = ([cardListing; deckListing] ++ cardDeletes ++ deckDeletes)%list /\
         fst cardListing = views_request dc dz dt None JUndefined /\
         fst deckListing = views_request dd dz dt None JUndefined /\
         map fst cardDeletes = delete_requests dc dz dt (listing (snd cardListing)) /\
         map fst deckDeletes = delete_requests dd dz dt (listing (snd deckListing))
     else clearing = []) /\
    fst cardFetch = views_request oc oz ot None JUndefined /\
    fst cardCreation =
      views_request dc dz dt (Some "POST") (answer_body (snd cardFetch)) /\
    fst cardsAgain = views_request dc dz dt None JUndefined /\
    map fst cardTags = tag_requests dc dz dt (listing (snd cardFetch)) /\
    fst deckFetch =
      views_request (od ++ "?filter[include][cards]") oz ot None JUndefined /\
    fst deckCreation =
      views_request dd dz dt (Some "POST") (answer_body (snd deckFetch)) /\
    map fst deckTags = tag_requests dd dz dt (listing (snd deckFetch)) /\
    map fst atOrigin =
      association_requests membership_in_attributes od oz ot (listing (snd deckFetch)) /\
    map fst atDestination =
      association_requests cards dd dz dt (listing (snd deckFetch)).
Proof.
  cbv zeta. unfold migrateGenerator, co_bind.
  destruct (authenticate transport (getConfig localConfig) s)
    as [[config| |] s1] eqn:A; try discriminate.
  destruct (clearDestinationData transport config s1) as [[[]| |] s2] eqn:C;
    try discriminate.
  destruct (migrateCards transport config s2) as [[originCards| |] s3] eqn:MC;
    try discriminate.
  destruct (migrateDecks transport config s3) as [[originDecks| |] s4] eqn:MD;
    try discriminate.
  intros AC.
  apply authenticate_inv in A
    as [d1 [d2 [p1 [p2 [b1 [b2 [T1 [P1 [P2 [A1 [A2 ->]]]]]]]]]]].
  apply clearDestinationData_inv in C as [clearing [T2 [_ C]]].
  apply migrateCards_inv in MC as [gc [pc [rc [ct [T3 [_ [R1 [R2 [R3 [M3 ->]]]]]]]]]].
  apply migrateDecks_inv in MD as [gd [pd [dt [T4 [_ [R4 [R5 [M4 ->]]]]]]]].
  apply associateCards_inv in AC as [ao [ad [T5 [MO [MD' _]]]]].
  cbn [local originalCardsUrl originalDecksUrl destinationCardsUrl destinationDecksUrl
       originalToken destinationToken set_destinationToken set_originalToken getConfig]
    in *.
  rewrite <- (token_obtained_of d1 p1 b1 P1 A1) in *.
  rewrite <- (token_obtained_of d2 p2 b2 P2 A2) in *.
  eexists (_, d1), (_, d2), clearing, gc, pc, rc, ct, gd, pd, dt, ao, ad.
  cbn [fst snd].
  split; [rewrite T5, T4, T3, T2, T1, <- !app_assoc; reflexivity |].
  split; [reflexivity |]. split; [reflexivity |].
  split; [exact C |].
  auto 20.
Qed.

(** A run completes only if every call it waited for ended well: both
    token exchanges were granted, and every views call other than the
    association calls at the origin was answered with success.  Nothing is
    known of those origin calls. *)
Theorem completed_run_calls_ended_well localConfig (s s' : St World) :
  migrateGenerator transport localConfig s = (Next tt, s') ->
  exists new bearer originDecks,
    trace s' = (trace s ++ new)%list /\
    Forall (fun e =>
              ended_well e \/
              In (fst e)
                 (association_requests membership_in_attributes
                    (originalViewsUrl localConfig ++ "/api/decks")
                    (originalViewsZoneId localConfig) ("Bearer " ++ bearer)
                    originDecks))
           new.
Proof.
  unfold migrateGenerator, co_bind.
  destruct (authenticate transport (getConfig localConfig) s)
    as [[config| |] s1] eqn:A; try discriminate.
  destruct (clearDestinationData transport config s1) as [[[]| |] s2] eqn:C;
    try discriminate.
  destruct (migrateCards transport config s2) as [[originCards| |] s3] eqn:MC;
    try discriminate.
  destruct (migrateDecks transport config s3) as [[originDecks| |] s4] eqn:MD;
    try discriminate.
  intros AC.
  apply authenticate_inv in A
    as [d1 [d2 [p1 [p2 [b1 [b2 [T1 [P1 [P2 [A1 [A2 ->]]]]]]]]]]].
  apply clearDestinationData_inv in C as [clearing [T2 [W2 _]]].
  apply migrateCards_inv in MC as [gc [pc [rc [ct [T3 [W3 _]]]]]].
  apply migrateDecks_inv in MD as [gd [pd [dt [T4 [W4 _]]]]].
  apply associateCards_inv in AC as [ao [ad [T5 [MO [_ [W5 _]]]]]].
  cbn [local originalCardsUrl originalDecksUrl destinationCardsUrl destinationDecksUrl
       originalToken destinationToken set_destinationToken set_originalToken getConfig]
    in *.
  exists ([(token_request (originalUaaUrl localConfig)
              (originalUaaCredentials localConfig), d1);
           (token_request (destinationUaaUrl localConfig)
              (destinationUaaCredentials localConfig), d2)]
          ++ clearing ++ ([gc; pc; rc] ++ ct) ++ ([gd; pd] ++ dt) ++ ao ++ ad)%list,
         b1, originDecks.
  split; [rewrite T5, T4, T3, T2, T1, <- !app_assoc; reflexivity |].
  assert (L : forall l, Forall ended_well l ->
                Forall (fun e => ended_well e \/
                                 In (fst e)
                                    (association_requests membership_in_attributes
                                       (originalViewsUrl localConfig ++ "/api/decks")
                                       (originalViewsZoneId localConfig)
                                       ("Bearer " ++ b1) originDecks)) l).
  { intros l F. eapply Forall_impl; [| exact F]. intros e; auto. }
  apply Forall_app; split.
  - apply Forall_cons; [| apply Forall_cons; [| apply Forall_nil]];
      left; left; cbn [fst snd];
      (split; [eexists; eexists; reflexivity
              | eapply granted_of_fulfilled; eassumption]).
  - apply Forall_app; split; [apply L; exact W2 |].
    apply Forall_app; split; [apply L; exact W3 |].
    apply Forall_app; split; [apply L; exact W4 |].
    apply Forall_app; split; [| apply L; exact W5].
    apply Forall_forall. intros e I. right. rewrite <- MO. now apply in_map.
Qed.

End CompletedRun.

(** ** What every call of a run looks like *)

Section CallInvariants.
Context `{Host} {World : Type}.
Variable transport : World -> Request -> Delivery * World.

Lemma io_logs_after_calls {A} (P : Request -> Prop) (m : IO World A) reqs :
  (forall s, snd (m s) = after_calls transport s reqs) ->
  Forall P reqs -> io_logs P m.
Proof. intros E F s. rewrite E. now apply after_calls_logs. Qed.

Lemma io_logs_deleteData_of P items url zoneId token type :
  Forall P (delete_requests url zoneId token items) ->
  io_logs P (deleteData transport items url zoneId token type).
Proof.
  apply io_logs_after_calls. intros s. now rewrite deleteData_run.
Qed.

Lemma io_logs_addTags_of P url list zoneId token :
  Forall P (tag_requests url zoneId token list) ->
  io_logs P (addTags transport url list zoneId token).
Proof.
  apply io_logs_after_calls. intros s. now rewrite addTags_run.
Qed.

Lemma io_logs_associateOrigin_of P config decks :
  Forall P (association_requests membership_in_attributes (originalDecksUrl config)
              (originalViewsZoneId (local config)) (originalToken config) decks) ->
  io_logs P (associateOrigin transport config decks).
Proof.
  apply io_logs_after_calls. intros s. now rewrite associateOrigin_run.
Qed.

Lemma io_logs_associateDestination_of P config decks :
  Forall P (association_requests cards (destinationDecksUrl config)
              (destinationViewsZoneId (local config)) (destinationToken config) decks) ->
  io_logs P (associateDestination transport config decks).
Proof.
  apply io_logs_after_calls. intros s. now rewrite associateDestination_run.
Qed.

(** What has to hold of [P] for every call issued after authentication to
    satisfy it. *)
Lemma after_authentication_logs (P : Request -> Prop) config :
  (forall url zoneId token,
     In (url, zoneId, token)
        [(destinationCardsUrl config, destinationViewsZoneId (local config),
          destinationToken config);
         (destinationDecksUrl config, destinationViewsZoneId (local config),
          destinationToken config);
         (originalCardsUrl config, originalViewsZoneId (local config),
          originalToken config);
         (destinationViewsUrl (local config) ++ "/api/cards",
          destinationViewsZoneId (local config), destinationToken config);
         (originalDecksUrl config ++ "?filter[include][cards]",
          originalViewsZoneId (local config), originalToken config)] ->
     P (views_request url zoneId token None JUndefined)) ->
  (forall listed,
     P (views_request (destinationViewsUrl (local config) ++ "/api/cards")
          (destinationViewsZoneId (local config)) (destinationToken config)
          (Some "POST") listed)) ->
  (forall listed,
     P (views_request (destinationDecksUrl config)
          (destinationViewsZoneId (local config)) (destinationToken config)
          (Some "POST") listed)) ->
  (forall url items,
     url = destinationCardsUrl config \/ url = destinationDecksUrl config ->
     Forall P (delete_requests url (destinationViewsZoneId (local config))
                 (destinationToken config) items) /\
     Forall P (tag_requests url (destinationViewsZoneId (local config))
                 (destinationToken config) items)) ->
  (forall decks,
     Forall P (association_requests membership_in_attributes (originalDecksUrl config)
                 (originalViewsZoneId (local config)) (originalToken config) decks)) ->
  (forall decks,
     Forall P (association_requests cards (destinationDecksUrl config)
                 (destinationViewsZoneId (local config)) (destinationToken config)
                 decks)) ->
  logs P (co_bind (clearDestinationData transport config) (fun _ =>
          co_bind (migrateCards transport config) (fun _ =>
          co_bind (migrateDecks transport config) (fun decks =>
          associateCards transport config decks)))).
Proof.
  intros G PC PD B AO AD.
  unfold clearDestinationData, migrateCards, migrateDecks, associateCards.
  destruct (clearDestination (local config));
    repeat first
      [ apply logs_bind; [| intros ?]
      | apply logs_ret
      | apply logs_eval
      | apply logs_yield
      | apply logs_yield_beside
      | apply logs_perform
      | apply io_logs_deleteData_of; apply B; auto
      | apply io_logs_addTags_of; apply B; auto
      | apply io_logs_associateOrigin_of; apply AO
      | apply io_logs_associateDestination_of; apply AD
      | apply io_logs_requestViewsData;
        first [ apply PC | apply PD | apply G; cbn; auto 10 ] ].
Qed.

(** Authentication that does not complete has stopped at one of the two
    exchanges. *)
Lemma authenticate_stops config (s : St World) :
  (forall config', fst (authenticate transport config s) <> Next config') ->
  exists new,
    trace (snd (authenticate transport config s)) = (trace s ++ new)%list /\
    Forall (fun e => token_exchange (fst e)) new /\
    length new <= 2.
Proof.
  unfold authenticate, co_bind, eval, co_ret.
  rewrite yield_requestToken. cbv zeta. rewrite (after_calls_one transport).
  set (first := token_request (originalUaaUrl (local config)) _).
  set (d1 := fst (transport (world s) first)).
  assert (X1 : token_exchange first) by (eexists; eexists; reflexivity).
  destruct (await (promise_of requestToken_callback d1)) as [p1| |].
  2-3: intros _; exists [(first, d1)]; cbn [snd trace length];
       (split; [reflexivity |]); (split; [repeat constructor; exact X1 | lia]).
  assert (Two : forall (r : Run Config) (s2 : St World) (second : Request) d2,
            token_exchange second ->
            trace s2 = (trace s ++ [(first, d1)] ++ [(second, d2)])%list ->
            exists new,
              trace (snd (r, s2)) = (trace s ++ new)%list /\
              Forall (fun e => token_exchange (fst e)) new /\ length new <= 2).
  { intros r s2 second d2 X2 T. exists [(first, d1); (second, d2)]. cbn [snd length].
    split; [exact T |]. split; [repeat constructor; assumption | lia]. }
  destruct (access_token p1) as [t1| |].
  2-3: intros _; exists [(first, d1)]; cbn [snd trace length];
       (split; [reflexivity |]); (split; [repeat constructor; exact X1 | lia]).
  rewrite yield_requestToken. cbv zeta. rewrite (after_calls_one transport).
  cbn [local set_originalToken world trace].
  set (second := token_request (destinationUaaUrl (local config)) _).
  set (d2 := fst (transport _ second)).
  assert (X2 : token_exchange second) by (eexists; eexists; reflexivity).
  destruct (await (promise_of requestToken_callback d2)) as [p2| |].
  2-3: intros _; apply (Two _ _ second d2 X2); cbn [trace];
       now rewrite <- app_assoc.
  destruct (access_token p2) as [t2| |].
  2-3: intros _; apply (Two _ _ second d2 X2); cbn [trace];
       now rewrite <- app_assoc.
  intros N. exfalso. eapply N. reflexivity.
Qed.

(** Composition with authentication: the tokens are those made of the
    answers to the two exchanges. *)
Lemma run_logs (P : string -> string -> Request -> Prop) localConfig (s : St World) :
  (forall ot dt,
     logs (P ot dt)
       (co_bind (clearDestinationData transport (config_with localConfig ot dt)) (fun _ =>
        co_bind (migrateCards transport (config_with localConfig ot dt)) (fun _ =>
        co_bind (migrateDecks transport (config_with localConfig ot dt)) (fun decks =>
        associateCards transport (config_with localConfig ot dt) decks))))) ->
  exists new,
    trace (snd (migrateGenerator transport localConfig s)) = (trace s ++ new)%list /\
    Forall (fun e => token_exchange (fst e)) (firstn 2 new) /\
    forall first second rest,
      new = first :: second :: rest ->
      Forall (fun e => P (token_obtained (snd first)) (token_obtained (snd second)) (fst e))
             rest.
Proof.
  intros PR. unfold migrateGenerator. unfold co_bind at 1.
  pose proof (authenticate_stops (getConfig localConfig) s) as Stop.
  destruct (authenticate transport (getConfig localConfig) s) as [r1 s1] eqn:A.
  cbn [fst snd] in Stop.
  destruct r1 as [config| |].
  2-3: destruct Stop as [new [E [F L]]]; [discriminate |];
       exists new; cbn [snd]; split; [exact E |];
       (split; [rewrite firstn_all2 by exact L; exact F |]);
       intros first second rest ->; cbn [length] in L;
       destruct rest; [constructor | cbn [length] in L; lia].
  clear Stop.
  apply authenticate_inv in A
    as [d1 [d2 [p1 [p2 [b1 [b2 [T1 [P1 [P2 [A1 [A2 ->]]]]]]]]]]].
  fold (config_with localConfig ("Bearer " ++ b1) ("Bearer " ++ b2)).
  destruct (PR ("Bearer " ++ b1) ("Bearer " ++ b2) s1) as [n2 [E2 F2]].
  cbn [local getConfig] in T1.
  eexists (_ :: _ :: n2).
  split; [rewrite E2, T1, <- app_assoc; reflexivity |].
  split.
  - cbn [firstn]. repeat constructor; cbn [fst]; eexists; eexists; reflexivity.
  - intros first second rest E. injection E as <- <- <-. cbn [snd].
    rewrite (token_obtained_of d1 p1 b1 P1 A1), (token_obtained_of d2 p2 b2 P2 A2).
    exact F2.
Qed.

(** No call strays from its zone.  The first two calls of a run are the
    token exchanges, and a run that stops there has made no other.  Every
    later call is either a call to the origin or a call to the destination.
    A call to the origin carries the origin's zone id and the token made of
    the answer to the first exchange, and is a GET of the cards or of the
    decks, or a POST adding cards to a deck: the origin is never deleted
    from and nothing is created there.  A call to the destination carries
    the destination's zone id and the token made of the answer to the second
    exchange, and goes to a URL under the destination's cards or decks. *)
Theorem calls_stay_in_their_zone localConfig (s : St World) :
  exists new,
    trace (snd (migrateGenerator transport localConfig s)) = (trace s ++ new)%list /\
    Forall (fun e => token_exchange (fst e)) (firstn 2 new) /\
    forall first second rest,
      new = first :: second :: rest ->
      Forall (fun e =>
                origin_call localConfig (token_obtained (snd first)) (fst e) \/
                destination_call localConfig (token_obtained (snd second)) (fst e))
             rest.
Proof.
  apply (run_logs (fun ot dt r =>
                     origin_call localConfig ot r \/ destination_call localConfig dt r)).
  intros ot dt. apply after_authentication_logs;
    cbn [config_with local originalCardsUrl originalDecksUrl destinationCardsUrl
         destinationDecksUrl originalToken destinationToken set_destinationToken
         set_originalToken getConfig].
  - intros url z t I. cbn [In] in I.
    destruct I as [I | [I | [I | [I | [I | []]]]]]; inversion I; subst; clear I.
    + right. split; [reflexivity |]. exists "". left. now rewrite append_empty.
    + right. split; [reflexivity |]. exists "". right. now rewrite append_empty.
    + left. split; [reflexivity |]. left. split; [reflexivity | now left].
    + right. split; [reflexivity |]. exists "". left. now rewrite append_empty.
    + left. split; [reflexivity |]. left. split; [reflexivity | now right].
  - intros listed. right. split; [reflexivity |]. exists "". left.
    cbn [req_url views_request]. now rewrite append_empty.
  - intros listed. right. split; [reflexivity |]. exists "". right.
    cbn [req_url views_request]. now rewrite append_empty.
  - intros url items U. unfold delete_requests, tag_requests.
    split; apply Forall_map, Forall_forall; intros x _; right;
      (split; [reflexivity |]); cbn [req_url]; eexists;
      (destruct U as [-> | ->]; [left | right]); reflexivity.
  - intros decks. unfold association_requests.
    apply Forall_map, Forall_forall. intros x _. left.
    split; [reflexivity |]. right. split; [reflexivity |]. exists (id x). reflexivity.
  - intros decks. unfold association_requests.
    apply Forall_map, Forall_forall. intros x _. right.
    split; [reflexivity |]. cbn [req_url]. eexists. right. reflexivity.
Qed.

Lemma nonempty_inv {A} (o : option (list A)) :
  nonempty o = true -> exists a l, o = Some (a :: l).
Proof. destruct o as [[|a l]|]; try discriminate. eauto. Qed.

Lemma run_logs_all (P : Request -> Prop) localConfig (s : St World) :
  (forall ot dt,
     logs P
       (co_bind (clearDestinationData transport (config_with localConfig ot dt)) (fun _ =>
        co_bind (migrateCards transport (config_with localConfig ot dt)) (fun _ =>
        co_bind (migrateDecks transport (config_with localConfig ot dt)) (fun decks =>
        associateCards transport (config_with localConfig ot dt) decks))))) ->
  exists new,
    trace (snd (migrateGenerator transport localConfig s)) = (trace s ++ new)%list /\
    Forall (fun e => token_exchange (fst e) \/ P (fst e)) new.
Proof.
  intros PR.
  destruct (run_logs (fun _ _ => P) localConfig s PR) as [new [E [F R]]].
  exists new. split; [exact E |].
  destruct new as [|a [|b rest]]; cbn [firstn] in F.
  - constructor.
  - eapply Forall_impl; [| exact F]. intros e; auto.
  - specialize (R a b rest eq_refl).
    inversion F as [|? ? Fa F']. inversion F' as [|? ? Fb _]. subst.
    constructor; [now left |]. constructor; [now left |].
    eapply Forall_impl; [| exact R]. intros e; auto.
Qed.

(** What the views calls carry.  In every run, a GET or a DELETE is sent
    without a body; a tag POST and an association POST are sent as JSON
    with an array that is never empty; a creation POST, sent to the URL of
    the destination's cards or decks, carries the body of the listing it
    copies, as JSON, or goes out without any body when there is nothing
    truthy to copy (a listing that came back as an empty text). *)
Theorem views_calls_carry_what_their_method_needs localConfig (s : St World) :
  exists new,
    trace (snd (migrateGenerator transport localConfig s)) = (trace s ++ new)%list /\
    Forall (fun e => token_exchange (fst e) \/
                     carries_what_its_method_needs localConfig (fst e)) new.
Proof.
  apply run_logs_all.
  intros ot dt. apply after_authentication_logs;
    cbn [config_with local originalCardsUrl originalDecksUrl destinationCardsUrl
         destinationDecksUrl originalToken destinationToken set_destinationToken
         set_originalToken getConfig].
  - intros url z t _. left. cbn. auto.
  - intros listed. right. split; [reflexivity |]. left.
    split; [left; reflexivity |]. cbn [req_json req_body views_request].
    destruct (truthy listed) eqn:T; auto.
  - intros listed. right. split; [reflexivity |]. left.
    split; [right; reflexivity |]. cbn [req_json req_body views_request].
    destruct (truthy listed) eqn:T; auto.
  - intros url items _. unfold delete_requests, tag_requests. split.
    + apply Forall_map, Forall_forall. intros x _. left. cbn. auto.
    + apply Forall_map, Forall_forall. intros x I. right.
      split; [reflexivity |]. right. left. split; [reflexivity |].
      apply filter_In in I as [_ I]. apply nonempty_inv in I as [t [l E]].
      unfold tags_or_nil. rewrite E. cbn. eauto.
  - intros decks. unfold association_requests.
    apply Forall_map, Forall_forall. intros x I. right.
    split; [reflexivity |]. right. right. split; [reflexivity |].
    apply filter_In in I as [_ I]. apply nonempty_inv in I as [c [l E]].
    rewrite E. cbn. eauto.
  - intros decks. unfold association_requests.
    apply Forall_map, Forall_forall. intros x I. right.
    split; [reflexivity |]. right. right. split; [reflexivity |].
    apply filter_In in I as [_ I]. apply nonempty_inv in I as [c [l E]].
    rewrite E. cbn. eauto.
Qed.

End CallInvariants.

(** ** A run that fails *)

Section FailedRun.
Context `{Host} {World : Type}.
Variable transport : World -> Request -> Delivery * World.

Lemma access_token_failure (parsed : JSValue) x :
  access_token parsed = Failed x -> x = TypeError.
Proof.
  destruct parsed as [| | | | | |o]; cbn; try discriminate;
    try (intros E; now inversion E).
  destruct (find _ o); discriminate.
Qed.

Lemma items_of_failure (b : JSValue) x : items_of b = Failed x -> x = TypeError.
Proof. destruct b; cbn; try discriminate; intros E; now inversion E. Qed.

Lemma yield_requestToken_log uaaUrl credentials (s s' : St World) r :
  yield (requestToken transport uaaUrl credentials) s = (r, s') ->
  exists d,
    trace s' = (trace s ++ [(token_request uaaUrl credentials, d)])%list /\
    r = await (promise_of requestToken_callback d).
Proof.
  rewrite yield_requestToken. cbv zeta. rewrite after_calls_one.
  intros E. inversion E. eexists. split; reflexivity.
Qed.

Lemma yield_requestViewsData_log url zoneId token method sent (s s' : St World) r :
  yield (requestViewsData transport url zoneId token method sent) s = (r, s') ->
  exists d,
    trace s' = (trace s ++ [(views_request url zoneId token method sent, d)])%list /\
    r = await (promise_of (requestViewsData_callback url zoneId method sent) d).
Proof.
  rewrite yield_requestViewsData. cbv zeta. rewrite after_calls_one.
  intros E. inversion E. eexists. split; reflexivity.
Qed.

Lemma await_failed {A} (p : Promise A) x : Failed x = await p -> p = Rejected x.
Proof. destruct p; cbn; intros E; inversion E; reflexivity. Qed.

Lemma yield_join_never_fails (reqs : list Request) (s s' : St World) x
    (m : IO World (Promise unit)) :
  m s = (if forallb succeeds (answers transport s reqs) then Fulfilled tt else Pending,
         after_calls transport s reqs) ->
  yield m s <> (Failed x, s').
Proof.
  intros R. unfold yield. rewrite R.
  destruct (forallb succeeds _); cbn [await]; discriminate.
Qed.

(** How each stage fails. *)
Lemma authenticate_failed config (s s' : St World) x :
  authenticate transport config s = (Failed x, s') ->
  x = TypeError \/
  exists before e,
    trace s' = (trace s ++ before ++ [e])%list /\
    token_exchange (fst e) /\
    promise_of requestToken_callback (snd e) = Rejected x.
Proof.
  unfold authenticate, co_bind.
  destruct (yield (requestToken transport _ _) s) as [r1 s1] eqn:Y1.
  apply yield_requestToken_log in Y1 as [d1 [T1 ->]].
  destruct (await (promise_of requestToken_callback d1)) as [p1|e1|] eqn:A1.
  - unfold eval at 1.
    destruct (access_token p1) as [t1|e1|] eqn:K1.
    + destruct (yield (requestToken transport _ _) s1) as [r2 s2] eqn:Y2.
      apply yield_requestToken_log in Y2 as [d2 [T2 ->]].
      destruct (await (promise_of requestToken_callback d2)) as [p2|e2|] eqn:A2.
      * unfold eval, co_ret.
        destruct (access_token p2) as [t2|e2|] eqn:K2; try discriminate.
        intros E. inversion E; subst. left. eapply access_token_failure; eassumption.
      * intros E. inversion E; subst. right.
        eexists [_], (_, d2). rewrite T2, T1, <- app_assoc.
        split; [reflexivity |]. cbn [fst snd].
        split; [eexists; eexists; reflexivity | now apply await_failed].
      * discriminate.
    + intros E. inversion E; subst. left. eapply access_token_failure; eassumption.
    + discriminate.
  - intros E. inversion E; subst. right.
    exists [], (token_request (originalUaaUrl (local config))
                  (originalUaaCredentials (local config)), d1).
    split; [exact T1 |]. cbn [fst snd].
    split; [eexists; eexists; reflexivity | now apply await_failed].
  - discriminate.
Qed.

Lemma clearDestinationData_failed config (s s' : St World) x :
  clearDestinationData transport config s = (Failed x, s') ->
  x = TypeError \/
  exists before e url,
    trace s' = (trace s ++ before ++ [e])%list /\
    fst e = views_request url (destinationViewsZoneId (local config))
              (destinationToken config) None JUndefined /\
    promise_of (requestViewsData_callback url (destinationViewsZoneId (local config))
                  None JUndefined) (snd e) = Rejected x.
Proof.
  unfold clearDestinationData.
  destruct (clearDestination (local config)); [| discriminate].
  unfold co_bind.
  destruct (yield (requestViewsData transport (destinationCardsUrl config) _ _ None JUndefined) s)
    as [r1 s1] eqn:Y1.
  apply yield_requestViewsData_log in Y1 as [d1 [T1 ->]].
  destruct (await _) as [fetchedCards|e1|] eqn:A1 in |- *.
  3: discriminate.
  2: { intros E. inversion E; subst. right.
       exists [], (views_request (destinationCardsUrl config)
                     (destinationViewsZoneId (local config)) (destinationToken config)
                     None JUndefined, d1), (destinationCardsUrl config).
       split; [exact T1 |]. split; [reflexivity |]. now apply await_failed. }
  destruct (yield (requestViewsData transport (destinationDecksUrl config) _ _ None JUndefined) s1)
    as [r2 s2] eqn:Y2.
  apply yield_requestViewsData_log in Y2 as [d2 [T2 ->]].
  destruct (await _) as [fetchedDecks|e2|] eqn:A2 in |- *.
  3: discriminate.
  2: { intros E. inversion E; subst. right.
       eexists [_], (views_request (destinationDecksUrl config)
                       (destinationViewsZoneId (local config)) (destinationToken config)
                       None JUndefined, d2), (destinationDecksUrl config).
       rewrite T2, T1, <- app_assoc.
       split; [reflexivity |]. split; [reflexivity |]. now apply await_failed. }
  unfold eval at 1.
  destruct (items_of (body fetchedCards)) as [staleCards|e3|] eqn:I1.
  3: discriminate.
  2: { intros E. inversion E; subst. left. eapply items_of_failure; eassumption. }
  destruct (yield (deleteData transport staleCards _ _ _ "card") s2)
    as [[[]|e4|] s3] eqn:Y3.
  3: discriminate.
  2: { exfalso. eapply yield_join_never_fails; [apply deleteData_run | exact Y3]. }
  unfold eval at 1.
  destruct (items_of (body fetchedDecks)) as [staleDecks|e5|] eqn:I2.
  3: discriminate.
  2: { intros E. inversion E; subst. left. eapply items_of_failure; eassumption. }
  intros Y4. exfalso. eapply yield_join_never_fails; [apply deleteData_run | exact Y4].
Qed.

(** The stage that copies the cards, and the one that copies the decks:
    [fetchUrl] is listed under the origin's token, the body of the listing
    is posted to [url]; [again] tells whether the destination is listed
    again before the tags are posted. *)
Lemma copy_failed (again : bool) config fetchUrl url tagUrl (s s' : St World) x
    (stage : Co World (list Item)) :
  stage =
    (fetched <- yield (requestViewsData transport fetchUrl
                         (originalViewsZoneId (local config))
                         (originalToken config) None JUndefined) ;;
     items <- eval (items_of (body fetched)) ;;
     yield (requestViewsData transport url (destinationViewsZoneId (local config))
              (destinationToken config) (Some "POST") (body fetched)) ;;
     (if again then
        (yield (requestViewsData transport url (destinationViewsZoneId (local config))
                  (destinationToken config) None JUndefined) ;;
         co_ret tt)
      else co_ret tt) ;;
     yield (addTags transport tagUrl items (destinationViewsZoneId (local config))
              (destinationToken config)) ;;
     co_ret items)%co ->
  stage s = (Failed x, s') ->
  x = TypeError \/
  (exists before e u zoneId token,
     trace s' = (trace s ++ before ++ [e])%list /\
     fst e = views_request u zoneId token None JUndefined /\
     promise_of (requestViewsData_callback u zoneId None JUndefined) (snd e) =
     Rejected x) \/
  (exists fetch e,
     trace s' = (trace s ++ [fetch] ++ [e])%list /\
     fst e = views_request url (destinationViewsZoneId (local config))
               (destinationToken config) (Some "POST") (answer_body (snd fetch)) /\
     promise_of (requestViewsData_callback url (destinationViewsZoneId (local config))
                   (Some "POST") (answer_body (snd fetch))) (snd e) = Rejected x).
Proof.
  intros ->. unfold co_bind.
  destruct (yield (requestViewsData transport fetchUrl _ _ None JUndefined) s)
    as [r1 s1] eqn:Y1.
  apply yield_requestViewsData_log in Y1 as [d1 [T1 ->]].
  destruct (await _) as [fetched|e1|] eqn:A1 in |- *.
  3: discriminate.
  2: { intros E. inversion E; subst. right. left.
       eexists [], (_, d1), _, _, _.
       split; [exact T1 |]. split; [reflexivity |]. now apply await_failed. }
  apply (await_views_body (originalViewsZoneId (local config)) None
           (fetchUrl, JUndefined)) in A1 as [B1 _].
  unfold eval at 1.
  destruct (items_of (body fetched)) as [items|e2|] eqn:I.
  3: discriminate.
  2: { intros E. inversion E; subst. left. eapply items_of_failure; eassumption. }
  destruct (yield (requestViewsData transport url _ _ (Some "POST") (body fetched)) s1)
    as [r2 s2] eqn:Y2.
  apply yield_requestViewsData_log in Y2 as [d2 [T2 ->]].
  rewrite B1 in T2 |- *.
  destruct (await _) as [created|e3|] eqn:A2 in |- *.
  3: discriminate.
  2: { intros E. inversion E; subst. right. right.
       eexists (_, d1), (_, d2). rewrite T2, T1, <- app_assoc.
       split; [reflexivity |]. split; [reflexivity |]. now apply await_failed. }
  destruct again.
  - destruct (yield (requestViewsData transport url _ _ None JUndefined) s2)
      as [r3 s3] eqn:Y3.
    apply yield_requestViewsData_log in Y3 as [d3 [T3 ->]].
    destruct (await _) as [refetched|e4|] eqn:A3 in |- *.
    3: discriminate.
    2: { intros E. inversion E; subst. right. left.
         eexists [_; _], (_, d3), _, _, _. rewrite T3, T2, T1, <- !app_assoc.
         split; [reflexivity |]. split; [reflexivity |]. now apply await_failed. }
    unfold co_ret at 1.
    destruct (yield (addTags transport _ items _ _) s3) as [[[]|e5|] s4] eqn:Y4.
    + discriminate.
    + exfalso. eapply yield_join_never_fails; [apply addTags_run | exact Y4].
    + discriminate.
  - unfold co_ret at 1.
    destruct (yield (addTags transport _ items _ _) s2) as [[[]|e5|] s4] eqn:Y4.
    + discriminate.
    + exfalso. eapply yield_join_never_fails; [apply addTags_run | exact Y4].
    + discriminate.
Qed.

Lemma migrateCards_copies config (s : St World) :
  migrateCards transport config s =
  (fetched <- yield (requestViewsData transport (originalCardsUrl config)
                       (originalViewsZoneId (local config))
                       (originalToken config) None JUndefined) ;;
   items <- eval (items_of (body fetched)) ;;
   yield (requestViewsData transport (destinationViewsUrl (local config) ++ "/api/cards")
            (destinationViewsZoneId (local config))
            (destinationToken config) (Some "POST") (body fetched)) ;;
   (yield (requestViewsData transport (destinationViewsUrl (local config) ++ "/api/cards")
             (destinationViewsZoneId (local config))
             (destinationToken config) None JUndefined) ;;
    co_ret tt) ;;
   yield (addTags transport (destinationCardsUrl config) items
            (destinationViewsZoneId (local config)) (destinationToken config)) ;;
   co_ret items)%co s.
Proof.
  unfold migrateCards, co_bind, co_ret.
  destruct (yield _ s) as [[fetched| |] s1]; try reflexivity.
  destruct (eval _ s1) as [[items| |] s1']; try reflexivity.
  destruct (yield _ s1') as [[created| |] s2]; try reflexivity.
  destruct (yield _ s2) as [[refetched| |] s3]; reflexivity.
Qed.

Lemma migrateDecks_copies config (s : St World) :
  migrateDecks transport config s =
  (fetched <- yield (requestViewsData transport
                       (originalDecksUrl config ++ "?filter[include][cards]")
                       (originalViewsZoneId (local config))
                       (originalToken config) None JUndefined) ;;
   items <- eval (items_of (body fetched)) ;;
   yield (requestViewsData transport (destinationDecksUrl config)
            (destinationViewsZoneId (local config))
            (destinationToken config) (Some "POST") (body fetched)) ;;
   co_ret tt ;;
   yield (addTags transport (destinationDecksUrl config) items
            (destinationViewsZoneId (local config)) (destinationToken config)) ;;
   co_ret items)%co s.
Proof.
  unfold migrateDecks, co_bind, co_ret.
  destruct (yield _ s) as [[fetched| |] s1]; reflexivity.
Qed.

Lemma associateCards_never_fails config decks (s s' : St World) x :
  associateCards transport config decks s <> (Failed x, s').
Proof.
  rewrite associateCards_run. cbv zeta.
  destruct (_ && _); [discriminate |].
  destruct (forallb succeeds _); discriminate.
Qed.

(** A failed run stopped at the call that failed.  When a run fails, the
    error is a TypeError (a token response or a listing was null or
    undefined), or the last call in the log is the one whose promise was
    rejected, and the run fails with what that promise was rejected with:
    the message [requestToken] or [requestViewsData] builds from the
    answer, or what [request] threw.  That call is a token exchange, a
    listing, or a creation POST to the destination's cards or decks that
    carries the body of the listing logged just before it; it is never a
    DELETE, a tag POST or an association POST. *)
Theorem failed_run_stopped_at_last_call localConfig (s : St World) (x : Exn) :
  fst (migrateGenerator transport localConfig s) = Failed x ->
  x = TypeError \/
  exists before e,
    trace (snd (migrateGenerator transport localConfig s)) =
    (trace s ++ before ++ [e])%list /\
    stopped_by localConfig before e x.
Proof.
  unfold migrateGenerator, co_bind.
  destruct (authenticate transport (getConfig localConfig) s)
    as [[config|e1|] s1] eqn:A.
  3: discriminate.
  2: { cbn [fst snd]. intros E. inversion E; subst.
       apply authenticate_failed in A as [-> | [before [e [T [X R]]]]]; [now left |].
       right. exists before, e. split; [exact T |]. left. auto. }
  apply authenticate_inv in A
    as [d1 [d2 [p1 [p2 [b1 [b2 [T1 [_ [_ [_ [_ ->]]]]]]]]]]].
  set (config := set_destinationToken _ _).
  match type of T1 with _ = (_ ++ ?l)%list => set (tokens := l) in T1 end.
  destruct (clearDestinationData transport config s1) as [[[]|e2|] s2] eqn:C.
  3: discriminate.
  2: { cbn [fst snd]. intros E. inversion E; subst.
       apply clearDestinationData_failed in C
         as [-> | [before [e [url [T [Q R]]]]]]; [now left |].
       right. eexists (tokens ++ before)%list, e. rewrite T, T1, <- !app_assoc.
       split; [reflexivity |]. right. left. eauto 6. }
  apply clearDestinationData_inv in C as [clearing [T2 _]].
  destruct (migrateCards transport config s2) as [[originCards|e3|] s3] eqn:MC.
  3: discriminate.
  2: { cbn [fst snd]. intros E. inversion E; subst.
       rewrite migrateCards_copies in MC.
       eapply (copy_failed true) in MC; [| reflexivity].
       destruct MC as [-> | [[before [e [u [z [t [T [Q R]]]]]]] | [fetch [e [T [Q R]]]]]];
         [now left | |].
       - right. eexists (tokens ++ clearing ++ before)%list, e.
         rewrite T, T2, T1, <- !app_assoc.
         split; [reflexivity |]. right. left. eauto 6.
       - right. eexists (tokens ++ clearing ++ [fetch])%list, e.
         rewrite T, T2, T1, <- !app_assoc.
         split; [reflexivity |]. right. right.
         eexists (tokens ++ clearing)%list, fetch, _, _, _.
         split; [rewrite <- !app_assoc; reflexivity |].
         split; [left; reflexivity |]. split; [exact Q | exact R]. }
  apply migrateCards_inv in MC as [gc [pc [rc [ct [T3 _]]]]].
  destruct (migrateDecks transport config s3) as [[originDecks|e4|] s4] eqn:MD.
  3: discriminate.
  2: { cbn [fst snd]. intros E. inversion E; subst.
       rewrite migrateDecks_copies in MD.
       eapply (copy_failed false) in MD; [| reflexivity].
       destruct MD as [-> | [[before [e [u [z [t [T [Q R]]]]]]] | [fetch [e [T [Q R]]]]]];
         [now left | |].
       - right. eexists (tokens ++ clearing ++ ([gc; pc; rc] ++ ct) ++ before)%list, e.
         rewrite T, T3, T2, T1, <- !app_assoc.
         split; [reflexivity |]. right. left. eauto 6.
       - right. eexists (tokens ++ clearing ++ ([gc; pc; rc] ++ ct) ++ [fetch])%list, e.
         rewrite T, T3, T2, T1, <- !app_assoc.
         split; [reflexivity |]. right. right.
         eexists (tokens ++ clearing ++ [gc; pc; rc] ++ ct)%list, fetch, _, _, _.
         split; [rewrite <- !app_assoc; reflexivity |].
         split; [right; reflexivity |]. split; [exact Q | exact R]. }
  cbn [fst]. intros E. exfalso.
  destruct (associateCards transport config originDecks s4) as [r5 s5] eqn:AC.
  cbn [fst] in E. subst r5. eapply associateCards_never_fails. exact AC.
Qed.

End FailedRun.

(** ** A run that stalls *)

Section StalledRun.
Context `{Host} {World : Type}.
Variable transport : World -> Request -> Delivery * World.

Lemma stalls_ret {A} (a : A) : stalls_on_a_call (@co_ret World A a).
Proof. intros s E. discriminate E. Qed.

Lemma stalls_eval {A} (r : Run A) :
  r <> Stalled -> stalls_on_a_call (@eval World A r).
Proof. intros N s E. contradiction. Qed.

Lemma stalls_perform {A} (m : IO World A) : stalls_on_a_call (perform m).
Proof. intros s. unfold perform. destruct (m s). discriminate. Qed.

Lemma stalls_bind {A B} (m : Co World A) (k : A -> Co World B) :
  logs (fun _ => True) m ->
  stalls_on_a_call m ->
  (forall a, stalls_on_a_call (k a)) ->
  stalls_on_a_call (co_bind m k).
Proof.
  intros L Sm Sk s. unfold co_bind.
  destruct (L s) as [n1 [T1 _]]. specialize (Sm s).
  destruct (m s) as [[a| |] s1]; cbn [fst snd] in *; try discriminate.
  - intros E. destruct (Sk a s1 E) as [before [e [after [T Bad]]]].
    exists (n1 ++ before)%list, e, after. split; [| exact Bad].
    now rewrite T, T1, <- !app_assoc.
  - intros _. apply Sm. reflexivity.
Qed.

Lemma stalls_yield_requestToken uaaUrl credentials :
  stalls_on_a_call (yield (requestToken transport uaaUrl credentials)).
Proof.
  intros s. rewrite yield_requestToken. cbv zeta. cbn [fst snd].
  rewrite after_calls_one. cbn [trace].
  set (d := fst (transport (world s) (token_request uaaUrl credentials))).
  intros E. exists [], (token_request uaaUrl credentials, d), [].
  split; [reflexivity |]. left. split; [eexists; eexists; reflexivity |].
  cbn [snd]. rewrite <- token_promise_fulfilled.
  destruct (promise_of requestToken_callback d);
    [reflexivity | discriminate E | reflexivity | reflexivity].
Qed.

Lemma stalls_yield_requestViewsData url zoneId token method sent :
  stalls_on_a_call (yield (requestViewsData transport url zoneId token method sent)).
Proof.
  intros s. rewrite yield_requestViewsData. cbv zeta. cbn [fst snd].
  rewrite after_calls_one. cbn [trace].
  set (req := views_request url zoneId token method sent).
  set (d := fst (transport (world s) req)).
  intros E. exists [], (req, d), [].
  split; [reflexivity |]. right. split; [apply views_request_is_views_call |].
  cbn [snd]. rewrite <- (views_promise_fulfilled zoneId method (url, sent)).
  destruct (views_promise zoneId method (url, sent) d);
    [reflexivity | discriminate E | reflexivity | reflexivity].
Qed.

Lemma combine_split_at {A B} (l : list A) (l' : list B) (y : B) :
  length l' = length l -> In y l' ->
  exists before x after, combine l l' = (before ++ (x, y) :: after)%list /\ In x l.
Proof.
  revert l'. induction l as [|a l IH]; intros [|b l'] L I; try discriminate;
    [contradiction |].
  destruct I as [-> | I].
  - exists [], a, (combine l l'). split; [reflexivity | now left].
  - destruct (IH l' ltac:(now inversion L) I) as [before [x [after [E X]]]].
    exists ((a, b) :: before), x, after. cbn. rewrite E. split; [reflexivity | now right].
Qed.

Lemma stalls_yield_join (m : IO World (Promise unit)) :
  (forall s, exists reqs,
     Forall views_call reqs /\
     m s = (if forallb succeeds (answers transport s reqs) then Fulfilled tt else Pending,
            after_calls transport s reqs)) ->
  stalls_on_a_call (yield m).
Proof.
  intros R s. unfold yield. destruct (R s) as [reqs [V ->]].
  destruct (forallb succeeds (answers transport s reqs)) eqn:A; [discriminate |].
  intros _. cbn [snd].
  assert (X : exists d, In d (answers transport s reqs) /\ succeeds d = false).
  { clear -A. induction (answers transport s reqs) as [|d ds IH]; [discriminate |].
    cbn in A. destruct (succeeds d) eqn:S.
    - destruct (IH A) as [d' [I S']]. exists d'. split; [now right | exact S'].
    - exists d. split; [now left | exact S]. }
  destruct X as [d [I S]].
  destruct (combine_split_at reqs _ d (answers_length transport s reqs) I)
    as [before [req [after [E X]]]].
  exists before, (req, d), after. unfold after_calls. cbn [trace]. rewrite E.
  split; [reflexivity |]. right. split; [| exact S].
  rewrite Forall_forall in V. now apply V.
Qed.

Lemma not_all_succeed (ds : list Delivery) :
  forallb succeeds ds = false -> exists d, In d ds /\ succeeds d = false.
Proof.
  induction ds as [|d ds IH]; [discriminate |].
  cbn. destruct (succeeds d) eqn:S.
  - intros A. destruct (IH A) as [d' [I S']]. exists d'. split; [now right | exact S'].
  - intros _. exists d. split; [now left | exact S].
Qed.

Lemma stalls_associateCards config decks :
  stalls_on_a_call (associateCards transport config decks).
Proof.
  intros s. rewrite associateCards_run. cbv zeta. cbn [fst snd].
  set (origin := association_requests membership_in_attributes _ _ _ decks).
  set (destination := association_requests cards _ _ _ decks).
  assert (VO : Forall views_call origin) by apply association_requests_are_views_calls.
  assert (VD : Forall views_call destination)
    by apply association_requests_are_views_calls.
  set (s1 := after_calls transport s origin).
  assert (T1 : trace (after_calls transport s1 destination) =
               (trace s ++ combine origin (answers transport s origin)
                ++ combine destination (answers transport s1 destination))%list).
  { unfold after_calls at 1. cbn [trace]. unfold s1 at 1, after_calls at 1.
    cbn [trace]. now rewrite <- app_assoc. }
  rewrite T1.
  destruct ((0 <? length destination)%nat
            && existsb throws (answers transport s origin)) eqn:X.
  - intros _. apply andb_prop in X as [_ X].
    apply existsb_exists in X as [d [I T]].
    destruct (combine_split_at origin _ d (answers_length transport s origin) I)
      as [before [req [after [E R]]]].
    exists before, (req, d), (after ++ combine destination (answers transport s1 destination))%list.
    rewrite E, <- !app_assoc. split; [reflexivity |].
    right. split; [| now apply throws_not_succeeds].
    rewrite Forall_forall in VO. now apply VO.
  - destruct (forallb succeeds (answers transport s1 destination)) eqn:A;
      [intros E; discriminate E |].
    intros _. apply not_all_succeed in A as [d [I S]].
    destruct (combine_split_at destination _ d (answers_length transport s1 destination) I)
      as [before [req [after [E R]]]].
    exists (combine origin (answers transport s origin) ++ before)%list, (req, d), after.
    rewrite E, <- !app_assoc. split; [reflexivity |].
    right. split; [| exact S].
    rewrite Forall_forall in VD. now apply VD.
Qed.

Lemma access_token_never_stalls (parsed : JSValue) : access_token parsed <> Stalled.
Proof.
  destruct parsed as [| | | | | |o]; cbn; try discriminate.
  destruct (find _ o); discriminate.
Qed.

Lemma items_of_never_stalls (b : JSValue) : items_of b <> Stalled.
Proof. destruct b; discriminate. Qed.

Ltac every_log :=
  repeat first
    [ apply logs_bind; [| intros ?]
    | apply logs_ret
    | apply logs_eval
    | apply logs_yield
    | apply logs_perform
    | apply io_logs_requestViewsData; exact I
    | apply io_logs_requestToken; exact I
    | apply io_logs_deleteData_of; apply Forall_forall; intros; exact I
    | apply io_logs_addTags_of; apply Forall_forall; intros; exact I
    | apply io_logs_associateOrigin_of; apply Forall_forall; intros; exact I
    | apply io_logs_associateDestination_of; apply Forall_forall; intros; exact I ].

Ltac stall_steps :=
  repeat first
    [ progress cbv zeta
    | match goal with
      | |- context [if clearDestination ?c then _ else _] =>
          destruct (clearDestination c)
      end
    | apply stalls_associateCards
    | apply stalls_bind; [every_log | | intros ?]
    | apply stalls_ret
    | apply stalls_eval;
      first [apply access_token_never_stalls | apply items_of_never_stalls]
    | apply stalls_perform
    | apply stalls_yield_requestToken
    | apply stalls_yield_requestViewsData
    | apply stalls_yield_join; intros ?; eexists;
      first
        [ split; [apply delete_requests_are_views_calls | apply deleteData_run]
        | split; [apply tag_requests_are_views_calls | apply addTags_run]
        | split; [apply association_requests_are_views_calls
                 | apply associateDestination_run] ] ].

(** A run stalls only on a call that did not end well.  When a run neither
    completes nor fails, its log holds a call whose promise was not
    fulfilled: a token exchange that was not granted, or a views call that
    was not answered with success. *)
Theorem stalled_run_has_a_call_that_ended_badly localConfig (s : St World) :
  fst (migrateGenerator transport localConfig s) = Stalled ->
  exists before e after,
    trace (snd (migrateGenerator transport localConfig s)) =
    (trace s ++ before ++ e :: after)%list /\
    ended_badly e.
Proof.
  revert s. change (stalls_on_a_call (migrateGenerator transport localConfig)).
  unfold migrateGenerator, authenticate, clearDestinationData, migrateCards,
    migrateDecks.
  stall_steps.
Qed.

End StalledRun.

(** ** The stages at their edges *)

Section StageEdges.
Context `{Host} {World : Type}.
Variable transport : World -> Request -> Delivery * World.

(** The decks are migrated like the cards, without a second listing: once
    the origin's decks are fetched (with their cards included) and created
    at the destination in one POST, one tag POST is issued per deck with a
    non-empty tag list, under the id the deck has at the origin; the stage
    hands on the origin's decks when all tag calls end well and stalls
    otherwise. *)
Theorem migrateDecks_creates_then_tags config (s s1 s2 : St World)
    fetched decks created :
  yield (requestViewsData transport (originalDecksUrl config ++ "?filter[include][cards]")
           (originalViewsZoneId (local config)) (originalToken config)
           None JUndefined) s = (Next fetched, s1) ->
  body fetched = JItems decks ->
  yield (requestViewsData transport (destinationDecksUrl config)
           (destinationViewsZoneId (local config)) (destinationToken config)
           (Some "POST") (JItems decks)) s1 = (Next created, s2) ->
  let posts :=
    map (fun item =>
           {| req_url := destinationDecksUrl config ++ "/" ++ id item ++ "/tags";
              req_headers := [("Predix-Zone-Id", destinationViewsZoneId (local config));
                              ("Authorization", destinationToken config)];
              req_method := "POST";
              req_json := true;
              req_body := JTags (map (fun tag => {| value := value tag; tag_other := [] |})
                                     (tags_or_nil item)) |})
        (filter (fun item => match tags item with Some (_ :: _) => true | _ => false end)
                decks) in
  migrateDecks transport config s =
  (if forallb succeeds (answers transport s2 posts) then Next decks else Stalled,
   after_calls transport s2 posts).
Proof.
  intros Y1 B Y2. cbv zeta.
  fold (tag_requests (destinationDecksUrl config)
          (destinationViewsZoneId (local config)) (destinationToken config) decks).
  unfold migrateDecks, co_bind. rewrite Y1. unfold eval. rewrite B.
  cbn [items_of]. rewrite Y2. unfold yield. rewrite addTags_run. cbv zeta.
  destruct (forallb succeeds _); reflexivity.
Qed.

(** A listing that comes back null stops the stage with a TypeError before
    anything is written: no creation is posted for the cards, nor for the
    decks. *)
Theorem null_listing_fails_before_creation config (s s1 : St World) fetched :
  body fetched = JNull \/ body fetched = JUndefined ->
  (yield (requestViewsData transport (originalCardsUrl config)
            (originalViewsZoneId (local config)) (originalToken config)
            None JUndefined) s = (Next fetched, s1) ->
   migrateCards transport config s = (Failed TypeError, s1))
  /\
  (yield (requestViewsData transport (originalDecksUrl config ++ "?filter[include][cards]")
            (originalViewsZoneId (local config)) (originalToken config)
            None JUndefined) s = (Next fetched, s1) ->
   migrateDecks transport config s = (Failed TypeError, s1)).
Proof.
  intros B. split; intros Y.
  - unfold migrateCards, co_bind. rewrite Y. unfold eval.
    destruct B as [-> | ->]; reflexivity.
  - unfold migrateDecks, co_bind. rewrite Y. unfold eval.
    destruct B as [-> | ->]; reflexivity.
Qed.

(** Clearing is not all or nothing.  When the destination lists its cards
    but its deck listing comes back null, the cards are deleted first and
    only then does the stage fail with a TypeError; when the card listing
    itself is null, the stage fails after the two listings and deletes
    nothing. *)
Theorem clearDestinationData_fails_between_batches config (s s1 s2 : St World)
    fetchedCards fetchedDecks :
  clearDestination (local config) = true ->
  yield (requestViewsData transport (destinationCardsUrl config)
           (destinationViewsZoneId (local config)) (destinationToken config)
           None JUndefined) s = (Next fetchedCards, s1) ->
  yield (requestViewsData transport (destinationDecksUrl config)
           (destinationViewsZoneId (local config)) (destinationToken config)
           None JUndefined) s1 = (Next fetchedDecks, s2) ->
  (body fetchedCards = JNull ->
   clearDestinationData transport config s = (Failed TypeError, s2))
  /\
  (forall staleCards,
     body fetchedCards = JItems staleCards ->
     body fetchedDecks = JNull ->
     let deletes := delete_requests (destinationCardsUrl config)
                      (destinationViewsZoneId (local config)) (destinationToken config)
                      staleCards in
     forallb succeeds (answers transport s2 deletes) = true ->
     clearDestinationData transport config s =
     (Failed TypeError, after_calls transport s2 deletes)).
Proof.
  intros Flag Y1 Y2. split.
  - intros B. unfold clearDestinationData. rewrite Flag.
    unfold co_bind. rewrite Y1, Y2. unfold eval. rewrite B. reflexivity.
  - intros staleCards BC BD deletes A. unfold clearDestinationData. rewrite Flag.
    unfold co_bind. rewrite Y1, Y2. unfold eval at 1. rewrite BC.
    cbn [items_of elements].
    unfold yield at 1. rewrite deleteData_run. cbv zeta. fold deletes. rewrite A.
    cbn [await]. unfold eval. rewrite BD. reflexivity.
Qed.

(** An origin without cards: the empty list is still posted to the
    destination, the destination is still listed again, no tag call is
    issued and the stage completes. *)
Theorem migrateCards_of_no_cards config (s s1 s2 s3 : St World)
    fetched created refetched :
  yield (requestViewsData transport (originalCardsUrl config)
           (originalViewsZoneId (local config)) (originalToken config)
           None JUndefined) s = (Next fetched, s1) ->
  body fetched = JItems [] ->
  yield (requestViewsData transport (destinationViewsUrl (local config) ++ "/api/cards")
           (destinationViewsZoneId (local config)) (destinationToken config)
           (Some "POST") (JItems [])) s1 = (Next created, s2) ->
  yield (requestViewsData transport (destinationViewsUrl (local config) ++ "/api/cards")
           (destinationViewsZoneId (local config)) (destinationToken config)
           None JUndefined) s2 = (Next refetched, s3) ->
  migrateCards transport config s = (Next [], s3)
  /\ req_json (views_request (destinationViewsUrl (local config) ++ "/api/cards")
                 (destinationViewsZoneId (local config)) (destinationToken config)
                 (Some "POST") (JItems [])) = true
  /\ req_body (views_request (destinationViewsUrl (local config) ++ "/api/cards")
                 (destinationViewsZoneId (local config)) (destinationToken config)
                 (Some "POST") (JItems [])) = JItems [].
Proof.
  intros Y1 B Y2 Y3. split; [| split; reflexivity].
  unfold migrateCards, co_bind. rewrite Y1. unfold eval. rewrite B.
  cbn [items_of]. rewrite Y2, Y3. unfold yield. rewrite addTags_run. cbv zeta.
  cbn. now rewrite after_calls_nil.
Qed.

End StageEdges.

(** ** Further concrete runs *)

Lemma pair_of_fst {A B} (p : A * B) (a : A) : fst p = a -> p = (a, snd p).
Proof. intros <-. now destruct p. Qed.

(** A DELETE answered 204. *)
Lemma requestViewsData_rejects_outside_2xx_witness :
  rejected (fst (@requestViewsData (example_host []) unit (constant_transport (ok 204 ""))
                   "https://destination/api/cards/7" "destination-zone" "Bearer d"
                   (Some "DELETE") JUndefined start)) = false.
Proof.
  rewrite (@requestViewsData_rejects_outside_2xx (example_host []) unit
             (constant_transport (ok 204 ""))
             "https://destination/api/cards/7" "destination-zone" "Bearer d"
             (Some "DELETE") JUndefined start _ _ eq_refl eq_refl eq_refl eq_refl).
  reflexivity.
Defined.

(** The origin's token endpoint answers 401. *)
Lemma origin_token_refused_aborts_witness :
  let run := @migrateGenerator (example_host []) unit (constant_transport (ok 401 ""))
               (example_localConfig true) start in
  fst run = Failed (Message "Error retrieving token. Response returned status code 401")
  /\ map (fun e => req_url (fst e)) (trace (snd run)) = ["https://origin-uaa/oauth/token"].
Proof.
  cbv zeta.
  rewrite (@origin_token_refused_aborts (example_host []) unit
             (constant_transport (ok 401 "")) (example_localConfig true) start
             _ eq_refl eq_refl).
  split; reflexivity.
Defined.

(** The origin grants its token, the destination answers 500. *)
Lemma destination_token_refused_aborts_witness :
  let run := @migrateGenerator small_host nat
               (scripted_transport [ok 200 token_text; ok 500 ""])
               (example_localConfig true) pipeline_start in
  fst run = Failed (Message "Error retrieving token. Response returned status code 500")
  /\ map (fun e => req_url (fst e)) (trace (snd run)) =
     ["https://origin-uaa/oauth/token"; "https://destination-uaa/oauth/token"].
Proof.
  cbv zeta.
  rewrite (@destination_token_refused_aborts small_host nat
             (scripted_transport [ok 200 token_text; ok 500 ""])
             (example_localConfig true) pipeline_start
             (JObject [("access_token", "o")]) "o" _ eq_refl eq_refl eq_refl eq_refl).
  split; reflexivity.
Defined.

(** Both tokens granted. *)
Lemma authenticate_sets_bearer_tokens_witness :
  exists bearer1 bearer2,
    originalToken (config_with (example_localConfig true) "Bearer o" "Bearer d") =
    "Bearer " ++ bearer1 /\
    destinationToken (config_with (example_localConfig true) "Bearer o" "Bearer d") =
    "Bearer " ++ bearer2.
Proof.
  destruct (@authenticate_sets_bearer_tokens pipeline_host nat
              (scripted_transport pipeline_script)
              (getConfig (example_localConfig true)) pipeline_start _
              (config_with (example_localConfig true) "Bearer o" "Bearer d")
              (pair_of_fst _ _ eq_refl))
    as [d1 [d2 [p1 [p2 [b1 [b2 [_ [_ [_ [_ [_ [_ [_ [O [D _]]]]]]]]]]]]]]].
  exists b1, b2. split; assumption.
Defined.


(** The full-pipeline scenario again: its log opens with the two token
    exchanges. *)
Lemma completed_run_protocol_witness :
  exists first second rest,
    trace (snd (@migrateGenerator pipeline_host nat (scripted_transport pipeline_script)
                  (example_localConfig true) pipeline_start)) =
    first :: second :: rest /\
    fst first = token_request "https://origin-uaa" "b3JpZ2lu" /\
    fst second = token_request "https://destination-uaa" "ZGVzdA==".
Proof.
  assert (E : fst (@migrateGenerator pipeline_host nat (scripted_transport pipeline_script)
                     (example_localConfig true) pipeline_start) = Next tt)
    by (vm_compute; reflexivity).
  destruct (@completed_run_protocol pipeline_host nat (scripted_transport pipeline_script)
              (example_localConfig true) pipeline_start _ (pair_of_fst _ _ E))
    as [first [second [clearing [gc [pc [rc [ct [gd [pd [dt [ao [ad
         [T [F1 [F2 _]]]]]]]]]]]]]]].
  exists first, second,
    (clearing ++ [gc; pc; rc] ++ ct ++ [gd; pd] ++ dt ++ ao ++ ad)%list.
  split; [exact T |]. split; [exact F1 | exact F2].
Defined.

Lemma completed_run_calls_ended_well_witness :
  exists new bearer originDecks,
    trace (snd (@migrateGenerator pipeline_host nat (scripted_transport pipeline_script)
                  (example_localConfig true) pipeline_start)) = new /\
    Forall (fun e =>
              @ended_well pipeline_host e \/
              In (fst e)
                 (association_requests membership_in_attributes
                    "https://origin/api/decks" "origin-zone" ("Bearer " ++ bearer)
                    originDecks))
           new.
Proof.
  assert (E : fst (@migrateGenerator pipeline_host nat (scripted_transport pipeline_script)
                     (example_localConfig true) pipeline_start) = Next tt)
    by (vm_compute; reflexivity).
  exact (@completed_run_calls_ended_well pipeline_host nat
           (scripted_transport pipeline_script)
           (example_localConfig true) pipeline_start _ (pair_of_fst _ _ E)).
Defined.

(** The origin refuses to list its cards. *)
Lemma failed_run_stopped_at_last_call_witness :
  let run := @migrateGenerator small_host nat (scripted_transport listing_refused_script)
               (example_localConfig false) pipeline_start in
  exists x,
    fst run = Failed x /\
    (x = TypeError \/
     exists before e,
       trace (snd run) = (trace pipeline_start ++ before ++ [e])%list /\
       @stopped_by small_host (example_localConfig false) before e x).
Proof.
  cbv zeta. eexists. split; [vm_compute; reflexivity |].
  apply (@failed_run_stopped_at_last_call small_host nat
           (scripted_transport listing_refused_script)
           (example_localConfig false) pipeline_start).
  vm_compute. reflexivity.
Defined.

(** The destination answers 404 to the one tag call. *)
Lemma stalled_run_has_a_call_that_ended_badly_witness :
  exists before e after,
    trace (snd (@migrateGenerator small_host nat (scripted_transport tag_refused_script)
                  (example_localConfig false) pipeline_start)) =
    (before ++ e :: after)%list /\
    @ended_badly small_host e.
Proof.
  apply (@stalled_run_has_a_call_that_ended_badly small_host nat
           (scripted_transport tag_refused_script)
           (example_localConfig false) pipeline_start).
  vm_compute. reflexivity.
Defined.

(** The deck of the full-pipeline scenario; it has no tags. *)
Lemma migrateDecks_creates_then_tags_witness :
  fst (@migrateDecks small_host unit
         (example_transport
            [("GET", "https://origin/api/decks?filter[include][cards]",
              ok 200 (print_json (JItems origin_decks)));
             ("POST", "https://destination/api/decks", ok 200 "")])
         example_config start) = Next origin_decks.
Proof.
  rewrite (@migrateDecks_creates_then_tags small_host unit
             (example_transport
                [("GET", "https://origin/api/decks?filter[include][cards]",
                  ok 200 (print_json (JItems origin_decks)));
                 ("POST", "https://destination/api/decks", ok 200 "")])
             example_config start _ _ _ origin_decks _ eq_refl eq_refl eq_refl).
  reflexivity.
Defined.

(** An origin that answers its listings with the text "null". *)
Lemma null_listing_fails_before_creation_witness :
  (fst (@migrateCards small_host unit (constant_transport (ok 200 "null"))
          example_config start) = Failed TypeError
   /\ map (fun e => req_url (fst e))
        (trace (snd (@migrateCards small_host unit (constant_transport (ok 200 "null"))
                       example_config start))) = ["https://origin/api/cards"])
  /\
  (fst (@migrateDecks small_host unit (constant_transport (ok 200 "null"))
          example_config start) = Failed TypeError
   /\ map (fun e => req_url (fst e))
        (trace (snd (@migrateDecks small_host unit (constant_transport (ok 200 "null"))
                       example_config start))) =
      ["https://origin/api/decks?filter[include][cards]"]).
Proof.
  split.
  - rewrite (proj1 (@null_listing_fails_before_creation small_host unit
                      (constant_transport (ok 200 "null")) example_config start _
                      {| body := JNull; headers := [] |} (or_introl eq_refl))
                   eq_refl).
    split; reflexivity.
  - rewrite (proj2 (@null_listing_fails_before_creation small_host unit
                      (constant_transport (ok 200 "null")) example_config start _
                      {| body := JNull; headers := [] |} (or_introl eq_refl))
                   eq_refl).
    split; reflexivity.
Defined.

(** A destination whose two listings are "null", and one that lists three
    cards and answers "null" for its decks. *)
Lemma clearDestinationData_fails_between_batches_witness :
  (fst (@clearDestinationData clearing_host nat
          (scripted_transport [ok 200 "null"; ok 200 "null"])
          (config_with (example_localConfig true) "Bearer o" "Bearer d")
          pipeline_start) = Failed TypeError
   /\ map (fun e => req_method (fst e))
        (trace (snd (@clearDestinationData clearing_host nat
                       (scripted_transport [ok 200 "null"; ok 200 "null"])
                       (config_with (example_localConfig true) "Bearer o" "Bearer d")
                       pipeline_start))) = ["GET"; "GET"])
  /\
  (fst (@clearDestinationData clearing_host nat (scripted_transport null_decks_script)
          (config_with (example_localConfig true) "Bearer o" "Bearer d")
          pipeline_start) = Failed TypeError
   /\ map (fun e => req_method (fst e))
        (trace (snd (@clearDestinationData clearing_host nat
                       (scripted_transport null_decks_script)
                       (config_with (example_localConfig true) "Bearer o" "Bearer d")
                       pipeline_start))) = ["GET"; "GET"; "DELETE"; "DELETE"; "DELETE"]).
Proof.
  split.
  - rewrite (proj1 (@clearDestinationData_fails_between_batches clearing_host nat
                      (scripted_transport [ok 200 "null"; ok 200 "null"])
                      (config_with (example_localConfig true) "Bearer o" "Bearer d")
                      pipeline_start _ _ _ _ eq_refl eq_refl eq_refl)
                   eq_refl).
    split; reflexivity.
  - rewrite (proj2 (@clearDestinationData_fails_between_batches clearing_host nat
                      (scripted_transport null_decks_script)
                      (config_with (example_localConfig true) "Bearer o" "Bearer d")
                      pipeline_start _ _ _ _ eq_refl eq_refl eq_refl)
                   stale_cards eq_refl eq_refl eq_refl).
    split; reflexivity.
Defined.

(** An origin without cards. *)
Lemma migrateCards_of_no_cards_witness :
  map (fun e => (req_method (fst e), req_body (fst e)))
      (trace (snd (@migrateCards small_host unit (constant_transport (ok 200 "[]"))
                     example_config start))) =
  [("GET", JNull); ("POST", JItems []); ("GET", JNull)].
Proof.
  rewrite (proj1 (@migrateCards_of_no_cards small_host unit
                    (constant_transport (ok 200 "[]")) example_config start
                    _ _ _ _ _ _ eq_refl eq_refl eq_refl eq_refl)).
  reflexivity.
Defined.
